(** * Subtitle timing of the audio/text aligner ([app_windows.py])

    A shallow embedding of the timing core of the SRT generator: sentence
    segmentation, the 4-words-per-line block formatter, the duration
    estimator, the timeline synchronizer, the SRT serializer and the
    "smart" and "dummy" equal-division variants.

    Conventions of the embedding.
    - A Python [str] is a [string] whose characters are the code points
      U+0000..U+00FF; [isspace] is Python's [str.isspace] on that range.
    - A Python list is a [list]; a subtitle block is the list of its lines.
    - Python numbers (int and float are mixed freely by the source) are the
      elements of a type with the operations of class [PyNum].  Two
      instances are given: exact rational arithmetic ([Q]) and IEEE 754
      binary64 ([float]), the arithmetic CPython runs.  General theorems are
      proved for exact arithmetic; closed examples are evaluated in both.
    - A raised exception is a value [Raise e] of the result type [res]. *)

From Stdlib Require Import List String Ascii Bool Arith ZArith.
From Stdlib Require Import QArith Qround Qminmax.
From Stdlib Require Import Lia Lqa DecimalString.
From Stdlib Require Import Uint63 PrimFloat FloatOps SpecFloat.
Import ListNotations.

Local Close Scope Q_scope.
Local Open Scope string_scope.
Local Open Scope list_scope.
Local Open Scope nat_scope.

(* ================================================================== *)
(** ** Python strings *)

Module PyStr.

(** [str.isspace] for one character (code points below 256): the ASCII
    controls TAB..CR and FS..US, the space, NEL (U+0085) and NBSP (U+00A0). *)
Definition isspace (c : ascii) : bool :=
  let n := nat_of_ascii c in
  ((9 <=? n) && (n <=? 13)) || ((28 <=? n) && (n <=? 32))
  || (n =? 133) || (n =? 160).

(** [s.lstrip()] *)
Fixpoint lstrip (s : string) : string :=
  match s with
  | EmptyString => EmptyString
  | String c s' => if isspace c then lstrip s' else s
  end.

(** [s.rstrip()] *)
Fixpoint rstrip (s : string) : string :=
  match s with
  | EmptyString => EmptyString
  | String c s' =>
      match rstrip s' with
      | EmptyString => if isspace c then EmptyString else String c EmptyString
      | r => String c r
      end
  end.

(** [s.strip()] *)
Definition strip (s : string) : string := rstrip (lstrip s).

(** Truth value of a string: [bool(s)], false exactly for the empty one. *)
Definition truthy (s : string) : bool :=
  match s with EmptyString => false | _ => true end.

(** The scanning loop of [s.split()]: [w] is the word being collected. *)
Fixpoint split_from (w : string) (s : string) : list string :=
  match s with
  | EmptyString => if truthy w then [w] else []
  | String c s' =>
      if isspace c
      then (if truthy w then w :: split_from EmptyString s'
            else split_from EmptyString s')
      else split_from (w ++ String c EmptyString)%string s'
  end.

(** [s.split()]: the maximal runs of non-whitespace characters, in order. *)
Definition split (s : string) : list string := split_from EmptyString s.

(** [sep.join(l)] *)
Definition join (sep : string) (l : list string) : string :=
  String.concat sep l.

(** [s.startswith(p)] *)
Definition startswith (p s : string) : bool := String.prefix p s.

End PyStr.

(* ================================================================== *)
(** ** Python lists: slices and ranges *)

Module PyList.

(** [l[i:j]] for [0 <= i], [0 <= j] (out-of-range bounds are clipped). *)
Definition slice {A} (l : list A) (i j : nat) : list A :=
  firstn (j - i) (skipn i l).

(** [range(0, stop, step)] for [step > 0]. *)
Definition range0 (stop step : nat) : list nat :=
  map (fun k => k * step) (seq 0 ((stop + step - 1) / step)).

(** [enumerate(l)] *)
Definition enumerate {A} (l : list A) : list (nat * A) :=
  combine (seq 0 (List.length l)) l.

End PyList.

Import PyStr PyList.

(* ================================================================== *)
(** ** LineBlockFormatter *)

(** A subtitle block: the list of its display lines. *)
Definition block := list string.

(** [split_long_sentence(sentence, max_chars=42)]; [max_chars] is unused by
    the source. *)
Definition split_long_sentence (sentence : string) : list block :=
  let words := split sentence in
  if 8 <=? List.length words then
    flat_map
      (fun i =>
         let block_words := slice words i (i + 8) in
         if 4 <=? List.length block_words then
           let line1 := join " " (slice block_words 0 4) in
           let line2 := join " " (slice block_words 4 8) in
           [[line1; line2]]
         else [])
      (range0 (List.length words) 8)
  else if 4 <=? List.length words then
    let line1 := join " " (slice words 0 4) in
    let line2 :=
      if 4 <? List.length words then join " " (slice words 4 8) else "" in
    [[line1; line2]]
  else
    let line1 := join " " words in
    [[line1; ""]].

(** [split_into_fixed_chunks(text, chunk_size=4)] *)
Definition split_into_fixed_chunks (text : string) (chunk_size : nat)
  : list string :=
  let words := split text in
  map (fun i => join " " (slice words i (i + chunk_size)))
      (range0 (List.length words) chunk_size).

(** [group_chunks(chunks, lines_per_block=2)] *)
Definition group_chunks (chunks : list string) (lines_per_block : nat)
  : list block :=
  map (fun i => slice chunks i (i + lines_per_block))
      (range0 (List.length chunks) lines_per_block).

(* ================================================================== *)
(** ** Exceptions *)

(** The exceptions the arithmetic of the source can raise. *)
Inductive exn : Type :=
| ZeroDivisionError
| ValueError
| OverflowError.

(** The outcome of evaluating an expression: a value or a raised exception. *)
Inductive res (A : Type) : Type :=
| Ok (a : A)
| Raise (e : exn).

Arguments Ok {A} a.
Arguments Raise {A} e.

Definition bind {A B} (x : res A) (k : A -> res B) : res B :=
  match x with
  | Ok a => k a
  | Raise e => Raise e
  end.

Notation "x <- c ;; k" := (bind c (fun x => k))
  (at level 61, c at next level, right associativity).

(* ================================================================== *)
(** ** Python numbers *)

(** The operations the source applies to numbers.  [lt a b] is [a < b] (so
    [b > a]), [le a b] is [a <= b] (so [b >= a]); [of_int] converts an int
    operand of a mixed operation, [of_lit] reads a decimal float literal. *)
Class PyNum (F : Type) : Type := {
  of_int : Z -> F;
  of_lit : Q -> F;
  add : F -> F -> F;
  sub : F -> F -> F;
  mul : F -> F -> F;
  truediv : F -> F -> res F;
  floordiv : F -> F -> res F;
  modulo : F -> F -> res F;
  lt : F -> F -> bool;
  le : F -> F -> bool;
  to_int : F -> res Z
}.

(** The builtins [max(a, b)] and [min(a, b)]: the first argument is kept
    unless the second compares strictly greater (smaller). *)
Definition py_max {F} `{PyNum F} (a b : F) : F := if lt a b then b else a.
Definition py_min {F} `{PyNum F} (a b : F) : F := if lt b a then b else a.

(** *** Exact arithmetic *)

Definition Q_truediv (a b : Q) : res Q :=
  if Qeq_bool b 0 then Raise ZeroDivisionError else Ok (a / b)%Q.

Definition Q_floordiv (a b : Q) : res Q :=
  if Qeq_bool b 0 then Raise ZeroDivisionError
  else Ok (inject_Z (Qfloor (a / b)%Q)).

Definition Q_modulo (a b : Q) : res Q :=
  if Qeq_bool b 0 then Raise ZeroDivisionError
  else Ok (a - b * inject_Z (Qfloor (a / b)))%Q.

(** [int(x)] truncates toward zero. *)
Definition Q_to_int (a : Q) : res Z := Ok (Z.quot (Qnum a) (Zpos (Qden a))).

#[export] Instance Q_num : PyNum Q := {
  of_int := inject_Z;
  of_lit := fun q => q;
  add := Qplus;
  sub := Qminus;
  mul := Qmult;
  truediv := Q_truediv;
  floordiv := Q_floordiv;
  modulo := Q_modulo;
  lt := fun a b => negb (Qle_bool b a);
  le := Qle_bool;
  to_int := Q_to_int
}.

(** *** IEEE 754 binary64, as CPython evaluates float expressions *)

Module B64.

(** The double nearest to [m * 2^e] (exact when that is representable). *)
Definition of_dyadic (m e : Z) : float :=
  SF2Prim (binary_normalize prec emax m e false).

(** int to float: round to nearest, ties to even (Python raises
    [OverflowError] beyond the range of a double; no int of the source comes
    near it). *)
Definition of_int (z : Z) : float := of_dyadic z 0.

(** A decimal literal [n/d]: the correctly rounded quotient, which is the
    nearest double whenever [n] and [d] are below [2^53]. *)
Definition of_lit (q : Q) : float :=
  PrimFloat.div (of_int (Qnum q)) (of_int (Zpos (Qden q))).

(** [copysign(0.0, x)] *)
Definition zero_like (x : float) : float :=
  if get_sign x then neg_zero else zero.

(** C's [fmod(x, y)]: the exact remainder of the truncated quotient, with
    the sign of [x]. *)
Definition fmod (x y : float) : float :=
  match Prim2SF x, Prim2SF y with
  | S754_nan, _ | _, S754_nan => nan
  | S754_infinity _, _ => nan
  | _, S754_zero _ => nan
  | _, S754_infinity _ => x
  | S754_zero _, _ => x
  | S754_finite sx mx ex, S754_finite _ my ey =>
      let e := Z.min ex ey in
      let r := Z.modulo (Zpos mx * 2 ^ (ex - e)) (Zpos my * 2 ^ (ey - e)) in
      if (r =? 0)%Z then (if sx then neg_zero else zero)
      else of_dyadic (cond_Zopp sx r) e
  end.

(** C's [floor(x)] *)
Definition floor (x : float) : float :=
  match Prim2SF x with
  | S754_finite s m e =>
      if (0 <=? e)%Z then x
      else
        let n := Z.div (cond_Zopp s (Zpos m)) (2 ^ (- e)) in
        if (n =? 0)%Z then zero else of_int n
  | _ => x
  end.

Definition truediv (a b : float) : res float :=
  if PrimFloat.eqb b zero then Raise ZeroDivisionError
  else Ok (PrimFloat.div a b).

(** [float_rem] of CPython's floatobject.c *)
Definition modulo (vx wx : float) : res float :=
  if PrimFloat.eqb wx zero then Raise ZeroDivisionError
  else
    let md := fmod vx wx in
    Ok (if negb (PrimFloat.eqb md zero) then
          if xorb (PrimFloat.ltb wx zero) (PrimFloat.ltb md zero)
          then PrimFloat.add md wx else md
        else zero_like wx).

(** [float_floor_div] of CPython's floatobject.c: the quotient of
    [_float_div_mod], snapped to the nearest integral value. *)
Definition floordiv (vx wx : float) : res float :=
  if PrimFloat.eqb wx zero then Raise ZeroDivisionError
  else
    let md := fmod vx wx in
    let dv := PrimFloat.div (PrimFloat.sub vx md) wx in
    let dv :=
      if negb (PrimFloat.eqb md zero)
         && xorb (PrimFloat.ltb wx zero) (PrimFloat.ltb md zero)
      then PrimFloat.sub dv one else dv in
    Ok (if negb (PrimFloat.eqb dv zero) then
          let fl := floor dv in
          if PrimFloat.ltb 0.5%float (PrimFloat.sub dv fl)
          then PrimFloat.add fl one else fl
        else zero_like (PrimFloat.div vx wx)).

(** [int(x)]: truncation toward zero; NaN and the infinities raise. *)
Definition to_int (x : float) : res Z :=
  match Prim2SF x with
  | S754_nan => Raise ValueError
  | S754_infinity _ => Raise OverflowError
  | S754_zero _ => Ok 0%Z
  | S754_finite s m e =>
      Ok (cond_Zopp s (if (0 <=? e)%Z then Zpos m * 2 ^ e
                       else Z.div (Zpos m) (2 ^ (- e))))
  end.

End B64.

#[export] Instance B64_num : PyNum float := {
  of_int := B64.of_int;
  of_lit := B64.of_lit;
  add := PrimFloat.add;
  sub := PrimFloat.sub;
  mul := PrimFloat.mul;
  truediv := B64.truediv;
  floordiv := B64.floordiv;
  modulo := B64.modulo;
  lt := PrimFloat.ltb;
  le := PrimFloat.leb;
  to_int := B64.to_int
}.

(* ================================================================== *)
(** ** Formatting of integers *)

(** The decimal digits of a non-negative integer. *)
Definition digits (n : N) : string := NilZero.string_of_uint (N.to_uint n).

(** [str(n)] for an int. *)
Definition str_int (n : Z) : string :=
  if (n <? 0)%Z then "-" ++ digits (Z.abs_N n) else digits (Z.abs_N n).

Fixpoint zeros (k : nat) : string :=
  match k with
  | O => ""
  | S k' => String "0" (zeros k')
  end.

(** [f"{n:0w}"]: sign first, then zeros up to a total width of [w]. *)
Definition pad0 (w : nat) (n : Z) : string :=
  let d := digits (Z.abs_N n) in
  let sign := if (n <? 0)%Z then "-" else "" in
  sign ++ zeros (w - String.length sign - String.length d) ++ d.

(* ================================================================== *)
(** ** SubtitleSerializer: time stamps *)

Section FormatTime.
Context {F : Type} `{PyNum F}.

(** [format_srt_time(seconds)] *)
Definition format_srt_time (seconds : F) : res string :=
  h <- floordiv seconds (of_int 3600) ;;
  hours <- to_int h ;;
  r <- modulo seconds (of_int 3600) ;;
  m <- floordiv r (of_int 60) ;;
  minutes <- to_int m ;;
  s <- modulo seconds (of_int 60) ;;
  secs <- to_int s ;;
  f <- modulo seconds (of_int 1) ;;
  millis <- to_int (mul f (of_int 1000)) ;;
  Ok (pad0 2 hours ++ ":" ++ pad0 2 minutes ++ ":" ++ pad0 2 secs
      ++ "," ++ pad0 3 millis)%string.

End FormatTime.

(* ================================================================== *)
(** ** Python [for] loops *)

(** What one iteration leaves behind: go on with the next item, or [break]. *)
Inductive flow (S : Type) : Type :=
| Next (s : S)
| Break (s : S).

Arguments Next {S} s.
Arguments Break {S} s.

(** [for x in l: body], threading the variables the body assigns as a state
    and stopping at the first [break] or raised exception. *)
Fixpoint for_loop {A S} (body : A -> S -> res (flow S)) (l : list A) (s : S)
  : res S :=
  match l with
  | [] => Ok s
  | x :: l' =>
      r <- body x s ;;
      match r with
      | Next s' => for_loop body l' s'
      | Break s' => Ok s'
      end
  end.

(* ================================================================== *)
(** ** Audio duration probe *)

(** What [subprocess.run(['ffprobe', ...], timeout=10)] does: it raises (the
    tool is missing, the call times out, ...) or completes with a return code
    and the captured standard output. *)
Inductive run_outcome : Type :=
| RunRaised
| Completed (returncode : Z) (stdout : string).

Section Probe.
Context {F : Type} `{PyNum F}.

(** [float(s)]: [None] stands for the [ValueError] of an unparsable string. *)
Variable parse_float : string -> option F.

(** [get_audio_duration(audio_path)], as a function of what running the
    probe on [audio_path] does.  The result is the pair (duration, error). *)
Definition get_audio_duration (run : run_outcome) : F * option string :=
  match run with
  | Completed returncode stdout =>
      if (returncode =? 0)%Z then
        match parse_float (strip stdout) with
        | Some d => (d, None)
        | None => (of_lit 60, None)
        end
      else (of_lit 60, None)
  | RunRaised => (of_lit 60, None)
  end.

End Probe.

(* ================================================================== *)
(** ** SentenceSegmenter *)

(** States of the scan for [(?<=[.!?]) +]: after an ordinary character, after
    a sentence-terminal mark, inside the run of spaces of a match. *)
Inductive scan : Type := Plain | AfterMark | InSpaces.

Definition is_mark (c : ascii) : bool :=
  Ascii.eqb c "." || Ascii.eqb c "!" || Ascii.eqb c "?".

Definition after (c : ascii) : scan := if is_mark c then AfterMark else Plain.

(** The pieces [re.split(r'(?<=[.!?]) +', s)] returns; [cur] is the piece
    being collected. *)
Fixpoint re_split_from (cur : string) (st : scan) (s : string) : list string :=
  match s with
  | EmptyString => [cur]
  | String c s' =>
      match st with
      | AfterMark =>
          if Ascii.eqb c " " then cur :: re_split_from EmptyString InSpaces s'
          else re_split_from (cur ++ String c EmptyString)%string (after c) s'
      | InSpaces =>
          if Ascii.eqb c " " then re_split_from cur InSpaces s'
          else re_split_from (cur ++ String c EmptyString)%string (after c) s'
      | Plain =>
          re_split_from (cur ++ String c EmptyString)%string (after c) s'
      end
  end.

Definition re_split_sentences (s : string) : list string :=
  re_split_from EmptyString Plain s.

(** [split_text_into_sentences(text)].  [nltk] is [Some sent_tokenize] when
    [NLTK_AVAILABLE] holds, the tokenizer being the external pretrained
    model, and [None] otherwise. *)
Definition split_text_into_sentences
  (nltk : option (string -> list string)) (text : string) : list string :=
  if negb (truthy text) || negb (truthy (strip text)) then []
  else
    match nltk with
    | Some sent_tokenize =>
        let sentences := sent_tokenize text in
        map strip (filter (fun s => truthy (strip s)) sentences)
    | None =>
        let sentences := re_split_sentences (strip text) in
        map strip (filter (fun s => truthy (strip s)) sentences)
    end.

(* ================================================================== *)
(** ** DurationEstimator and TimelineSynchronizer *)

(** A timed entry: the tuple [(subtitle_index, start_time, end_time, block)]. *)
Record timed (F : Type) : Type := Timed {
  t_index : Z;
  t_start : F;
  t_end : F;
  t_block : block
}.

Arguments Timed {F} _ _ _ _.
Arguments t_index {F} _.
Arguments t_start {F} _.
Arguments t_end {F} _.
Arguments t_block {F} _.

(** The variables the emission loops of [synchronize_with_audio] assign. *)
Record sync_state (F : Type) : Type := SyncState {
  srt_entries : list (timed F);
  current_time : F;
  subtitle_index : Z
}.

Arguments SyncState {F} _ _ _.
Arguments srt_entries {F} _.
Arguments current_time {F} _.
Arguments subtitle_index {F} _.

Section Timing.
Context {F : Type} `{PyNum F}.

(** [estimate_duration(text, wpm=165)] *)
Definition estimate_duration (text : string) (wpm : F) : res F :=
  let words := split text in
  let word_count := List.length words in
  wps <- truediv wpm (of_int 60) ;;
  duration <- truediv (of_int (Z.of_nat word_count)) wps ;;
  let duration := py_max duration (of_lit 1.5) in
  let duration := py_min duration (of_lit 6) in
  Ok duration.

(** The first pass of [synchronize_with_audio]: the sum of the clamped
    estimates of all blocks ([total_estimated_duration]). *)
Definition total_estimated_duration (sentences : list string) (wpm : F)
  : res F :=
  for_loop
    (fun sentence total =>
       let subtitle_blocks := split_long_sentence sentence in
       total <-
         for_loop
           (fun block total =>
              let total_words := List.length (split (join " " block)) in
              wps <- truediv wpm (of_int 60) ;;
              duration <- truediv (of_int (Z.of_nat total_words)) wps ;;
              let duration := py_max duration (of_lit 1.5) in
              let duration := py_min duration (of_lit 6) in
              Ok (Next (add total duration)))
           subtitle_blocks total ;;
       Ok (Next total))
    sentences (of_int 0).

(** The emission loop of the compression branch. *)
Definition emit_compressed (sentences : list string)
  (audio_duration wpm compression_ratio : F) (st : sync_state F)
  : res (sync_state F) :=
  for_loop
    (fun sentence st =>
       let subtitle_blocks := split_long_sentence sentence in
       st <-
         for_loop
           (fun block st =>
              let total_words := List.length (split (join " " block)) in
              wps <- truediv wpm (of_int 60) ;;
              duration <- truediv (of_int (Z.of_nat total_words)) wps ;;
              let duration := mul duration compression_ratio in
              let duration := py_max duration (of_lit 1) in
              if le audio_duration (current_time st) then Ok (Break st)
              else
                let duration :=
                  py_min duration (sub audio_duration (current_time st)) in
                let start_time := current_time st in
                let end_time := add (current_time st) duration in
                Ok (Next
                      (SyncState
                         (srt_entries st
                          ++ [Timed (subtitle_index st) start_time end_time
                                block])
                         end_time
                         (subtitle_index st + 1)%Z)))
           subtitle_blocks st ;;
       Ok (Next st))
    sentences st.

(** The emission loop of the normal branch. *)
Definition emit_normal (sentences : list string) (audio_duration wpm : F)
  (st : sync_state F) : res (sync_state F) :=
  for_loop
    (fun sentence st =>
       let subtitle_blocks := split_long_sentence sentence in
       st <-
         for_loop
           (fun block st =>
              let total_words := List.length (split (join " " block)) in
              wps <- truediv wpm (of_int 60) ;;
              duration <- truediv (of_int (Z.of_nat total_words)) wps ;;
              let duration := py_max duration (of_lit 1.5) in
              let duration := py_min duration (of_lit 6) in
              if le audio_duration (current_time st) then Ok (Break st)
              else
                let duration :=
                  py_min duration (sub audio_duration (current_time st)) in
                let start_time := current_time st in
                let end_time := add (current_time st) duration in
                Ok (Next
                      (SyncState
                         (srt_entries st
                          ++ [Timed (subtitle_index st) start_time end_time
                                block])
                         end_time
                         (subtitle_index st + 1)%Z)))
           subtitle_blocks st ;;
       Ok (Next st))
    sentences st.

(** [synchronize_with_audio(sentences, audio_duration, wpm=165)] *)
Definition synchronize_with_audio (sentences : list string)
  (audio_duration wpm : F) : res (list (timed F)) :=
  let st := SyncState [] (of_lit 0) 1%Z in
  total <- total_estimated_duration sentences wpm ;;
  st <-
    (if lt audio_duration total then
       compression_ratio <- truediv audio_duration total ;;
       emit_compressed sentences audio_duration wpm compression_ratio st
     else emit_normal sentences audio_duration wpm st) ;;
  Ok (srt_entries st).

End Timing.

(* ================================================================== *)
(** ** SubtitleSerializer *)

(** The line feed ["\n"]. *)
Definition nl : string := String (ascii_of_nat 10) EmptyString.

Section Serializer.
Context {F : Type} `{PyNum F}.

(** [generate_srt_content(srt_entries)]; unpacking a block that does not
    have exactly two lines raises [ValueError]. *)
Definition generate_srt_content (srt_entries : list (timed F)) : res string :=
  for_loop
    (fun e srt_content =>
       let srt_content := (srt_content ++ str_int (t_index e) ++ nl)%string in
       t0 <- format_srt_time (t_start e) ;;
       t1 <- format_srt_time (t_end e) ;;
       let srt_content := (srt_content ++ t0 ++ " --> " ++ t1 ++ nl)%string in
       match t_block e with
       | [line1; line2] =>
           let srt_content := (srt_content ++ line1 ++ nl)%string in
           let srt_content :=
             if truthy (strip line2) then (srt_content ++ line2 ++ nl)%string
             else srt_content in
           Ok (Next (srt_content ++ nl)%string)
       | _ => Raise ValueError
       end)
    srt_entries EmptyString.

End Serializer.

(* ================================================================== *)
(** ** The smart and dummy variants *)

(** What an alignment run hands back once its inputs are read: the report
    that no chunk was found (message, no artifact) or the SRT text written
    to the artifact.  A raised exception is caught by the caller's handler
    and reported as an error message with no artifact. *)
Inductive alignment : Type :=
| NoChunks
| Aligned (srt : string).

Section Variants.
Context {F : Type} `{PyNum F}.

(** The timing of [smart_align_text_with_audio]: the choice of
    [duration_per_block] and [total_duration], and the [start] and [end] the
    loop over [enumerate(blocks)] computes for each block, paired with the
    number [i+1] it prints. *)
Definition smart_entries (audio_duration : F) (blocks : list block)
  : res (list (timed F)) :=
  let block_count := Z.of_nat (List.length blocks) in
  let min_block_duration := of_lit 2 in
  let total_min_duration := mul min_block_duration (of_int block_count) in
  plan <-
    (if lt audio_duration total_min_duration then
       let duration_per_block := min_block_duration in
       let total_duration := mul duration_per_block (of_int block_count) in
       Ok (duration_per_block, total_duration)
     else
       duration_per_block <- truediv audio_duration (of_int block_count) ;;
       let total_duration := audio_duration in
       Ok (duration_per_block, total_duration)) ;;
  let duration_per_block := fst plan in
  let total_duration := snd plan in
  Ok (map
        (fun ib =>
           let i := Z.of_nat (fst ib) in
           let start := mul (of_int i) duration_per_block in
           let end_ := mul (of_int (i + 1)%Z) duration_per_block in
           let end_ :=
             if (i =? block_count - 1)%Z then total_duration else end_ in
           Timed (i + 1)%Z start end_ (snd ib))
        (enumerate blocks)).

(** The text the loop of [smart_align_text_with_audio] appends for each
    block. *)
Definition smart_srt (entries : list (timed F)) : res string :=
  for_loop
    (fun e srt =>
       let srt := (srt ++ str_int (t_index e) ++ nl)%string in
       t0 <- format_srt_time (t_start e) ;;
       t1 <- format_srt_time (t_end e) ;;
       let srt := (srt ++ t0 ++ " --> " ++ t1 ++ nl)%string in
       Ok (Next (srt ++ join nl (t_block e) ++ nl ++ nl)%string))
    entries EmptyString.

(** [smart_align_text_with_audio], from the text [combine_text_inputs]
    returned and the duration [get_audio_duration] returned. *)
Definition smart_align_text_with_audio (audio_duration : F) (text : string)
  : res alignment :=
  let chunks := split_into_fixed_chunks text 4 in
  match chunks with
  | [] => Ok NoChunks
  | _ =>
      let blocks := group_chunks chunks 2 in
      entries <- smart_entries audio_duration blocks ;;
      srt <- smart_srt entries ;;
      Ok (Aligned srt)
  end.

(** The timing of [dummy_align_text_with_audio] ([total_time = 60.0]). *)
Definition dummy_entries (blocks : list block) : res (list (timed F)) :=
  let block_count := Z.of_nat (List.length blocks) in
  let min_block_duration := of_lit 2 in
  let total_min_duration := mul min_block_duration (of_int block_count) in
  let total_time := of_lit 60 in
  plan <-
    (if lt total_time total_min_duration then
       let duration_per_block := min_block_duration in
       let total_duration := mul duration_per_block (of_int block_count) in
       Ok (duration_per_block, total_duration)
     else
       duration_per_block <- truediv total_time (of_int block_count) ;;
       let total_duration := total_time in
       Ok (duration_per_block, total_duration)) ;;
  let duration_per_block := fst plan in
  let total_duration := snd plan in
  Ok (map
        (fun ib =>
           let i := Z.of_nat (fst ib) in
           let start := mul (of_int i) duration_per_block in
           let end_ := mul (of_int (i + 1)%Z) duration_per_block in
           let end_ :=
             if (i =? block_count - 1)%Z then total_duration else end_ in
           Timed (i + 1)%Z start end_ (snd ib))
        (enumerate blocks)).

(** The text the loop of [dummy_align_text_with_audio] appends. *)
Definition dummy_srt (entries : list (timed F)) : res string :=
  for_loop
    (fun e srt =>
       let srt := (srt ++ str_int (t_index e) ++ nl)%string in
       t0 <- format_srt_time (t_start e) ;;
       t1 <- format_srt_time (t_end e) ;;
       let srt := (srt ++ t0 ++ " --> " ++ t1 ++ nl)%string in
       Ok (Next (srt ++ join nl (t_block e) ++ nl ++ nl)%string))
    entries EmptyString.

(** [dummy_align_text_with_audio], from the text [combine_text_inputs]
    returned. *)
Definition dummy_align_text_with_audio (text : string) : res alignment :=
  let chunks := split_into_fixed_chunks text 4 in
  match chunks with
  | [] => Ok NoChunks
  | _ =>
      let blocks := group_chunks chunks 2 in
      entries <- dummy_entries blocks ;;
      srt <- dummy_srt entries ;;
      Ok (Aligned srt)
  end.

End Variants.

(* ================================================================== *)
(** ** Notions used by the statements *)

(** [s] consists of whitespace only (the empty string included). *)
Fixpoint whitespace_only (s : string) : bool :=
  match s with
  | EmptyString => true
  | String c s' => isspace c && whitespace_only s'
  end.

(** The probe did not deliver a duration: the call raised, the tool
    returned a non-zero code, or its output is not a number. *)
Definition probe_failed {F} (parse_float : string -> option F)
  (run : run_outcome) : bool :=
  match run with
  | RunRaised => true
  | Completed returncode stdout =>
      negb (returncode =? 0)%Z
      || match parse_float (strip stdout) with
         | None => true
         | Some _ => false
         end
  end.

(** The blocks of a list of sentences, in the order the loops visit them. *)
Definition blocks_of (sentences : list string) : list block :=
  flat_map split_long_sentence sentences.

(** Number of words of a block: [len(" ".join(block).split())]. *)
Definition block_words (b : block) : nat := List.length (split (join " " b)).

(** The blocks one 8-word window of [split_long_sentence] contributes. *)
Definition window_blocks (words : list string) (i : nat) : list block :=
  let block_words := slice words i (i + 8) in
  if 4 <=? List.length block_words then
    [[join " " (slice block_words 0 4); join " " (slice block_words 4 8)]]
  else [].

(** The words the blocks display. *)
Definition displayed_words (bs : list block) : list string :=
  flat_map (fun b => split (join " " b)) bs.

Definition Qsum (l : list Q) : Q := fold_right Qplus 0%Q l.


(** The estimate [total_words / wps] of a block, for a non-zero rate. *)
Definition raw_duration (wpm : Q) (b : block) : Q :=
  (of_int (Z.of_nat (block_words b)) / (wpm / of_int 60))%Q.

(** The estimate clamped into [1.5, 6.0]. *)
Definition clamped (wpm : Q) (b : block) : Q :=
  py_min (py_max (raw_duration wpm b) (of_lit 1.5)) (of_lit 6).

(** The estimate scaled by the compression ratio and floored at 1.0. *)
Definition scaled (wpm ratio : Q) (b : block) : Q :=
  py_max (mul (raw_duration wpm b) ratio) (of_lit 1).

(** The emission loops of [synchronize_with_audio] once the estimate of a
    block is known to be [dur block]: one iteration, the loop over a list of
    blocks, and the entries it appends. *)
Section Emission.
Variable A : Q.
Variable dur : block -> Q.

Definition step (st : sync_state Q) (b : block) : sync_state Q :=
  let d := py_min (dur b) (sub A (current_time st)) in
  SyncState
    (srt_entries st
     ++ [Timed (subtitle_index st) (current_time st)
           (add (current_time st) d) b])
    (add (current_time st) d)
    (subtitle_index st + 1)%Z.

Definition body (b : block) (st : sync_state Q) : res (flow (sync_state Q)) :=
  if le A (current_time st) then Ok (Break st) else Ok (Next (step st b)).

Fixpoint run (bs : list block) (st : sync_state Q) : sync_state Q :=
  match bs with
  | [] => st
  | b :: bs' => if le A (current_time st) then st else run bs' (step st b)
  end.

Fixpoint emitted (idx : Z) (c : Q) (bs : list block) : list (timed Q) :=
  match bs with
  | [] => []
  | b :: bs' =>
      if le A c then []
      else
        let e := add c (py_min (dur b) (sub A c)) in
        Timed idx c e b :: emitted (idx + 1)%Z e bs'
  end.

End Emission.

(** The sentences [test_srt_generation] of test_app.py feeds to the
    synchronizer. *)
Definition test_sentences : list string :=
  ["Hello world! This is a test.";
   "The SRT generator should work properly.";
   "Each subtitle should have exactly four words per line."].

(** [a mod b] as the spec writes it: the remainder of the floored quotient. *)
Definition Qmod (a b : Q) : Q := (a - b * inject_Z (Qfloor (a / b)))%Q.

(** The four fields of a time stamp, in the spec's words:
    [hours = floor(s/3600)], [minutes = floor((s mod 3600)/60)],
    [seconds = floor(s mod 60)], [millis = floor((s mod 1) * 1000)]. *)
Definition spec_hours (s : Q) : Z := Qfloor (s / 3600).
Definition spec_minutes (s : Q) : Z := Qfloor (Qmod s 3600 / 60).
Definition spec_seconds (s : Q) : Z := Qfloor (Qmod s 60).
Definition spec_millis (s : Q) : Z := Qfloor (Qmod s 1 * 1000).

(** The time stamp assembled from the spec's fields. *)
Definition spec_stamp (s : Q) : string :=
  (pad0 2 (spec_hours s) ++ ":" ++ pad0 2 (spec_minutes s) ++ ":"
   ++ pad0 2 (spec_seconds s) ++ "," ++ pad0 3 (spec_millis s))%string.

(** The double Python reads for the literal [3661.999]. *)
Definition t_3661_999 : float := 0x1.c9bff7ced9168p+11%float.

(** The timeline [r] gives every block of [blocks] exactly 2 seconds and
    ends at [2 * len(blocks)], past the duration [limit] it was given. *)
Definition overruns (r : res (list (timed Q))) (blocks : list block)
  (limit : Q) : Prop :=
  exists es : list (timed Q),
    r = Ok es
    /\ map t_block es = blocks
    /\ Forall (fun e => t_end e - t_start e == 2)%Q es
    /\ (last (map t_end es) 0
        == 2 * inject_Z (Z.of_nat (List.length blocks)))%Q
    /\ (limit < last (map t_end es) 0)%Q.

(** The entry the loop of the smart and dummy variants builds for the
    [i]-th block, given [block_count], [duration_per_block] and
    [total_duration]. *)
Definition entry_of (block_count : Z) (duration_per_block total_duration : Q)
  (ib : nat * block) : timed Q :=
  let i := Z.of_nat (fst ib) in
  Timed (i + 1)%Z (mul (of_int i) duration_per_block)
    (if (i =? block_count - 1)%Z then total_duration
     else mul (of_int (i + 1)%Z) duration_per_block)
    (snd ib).

(* ================================================================== *)
(** ** Further notions: words *)

(** [s] holds no whitespace character. *)
Fixpoint no_space (s : string) : bool :=
  match s with
  | EmptyString => true
  | String c s' => negb (isspace c) && no_space s'
  end.

(** A word: non-empty and free of whitespace. *)
Definition is_word (w : string) : bool := truthy w && no_space w.

(** How many of the [n] words of a sentence [split_long_sentence] displays:
    all of them, except that a sentence of 8 or more words loses a last
    window of one to three words. *)
Definition kept_words (n : nat) : nat :=
  if n <? 8 then n else if n mod 8 <? 4 then n - n mod 8 else n.

(* ------------------------------------------------------------------ *)
(** ** Further notions: the text of one entry *)

Section EntryText.
Context {F : Type} `{PyNum F}.

(** What one iteration of the loop of [generate_srt_content] appends to
    [srt_content]. *)
Definition entry_text (e : timed F) : res string :=
  t0 <- format_srt_time (t_start e) ;;
  t1 <- format_srt_time (t_end e) ;;
  match t_block e with
  | [line1; line2] =>
      Ok (str_int (t_index e) ++ nl ++ t0 ++ " --> " ++ t1 ++ nl
          ++ line1 ++ nl
          ++ (if truthy (strip line2) then line2 ++ nl else "")
          ++ nl)%string
  | _ => Raise ValueError
  end.

End EntryText.

(** A block [generate_srt_content] can unpack into [line1, line2]. *)
Definition two_lines (b : block) : bool := List.length b =? 2.

(* ------------------------------------------------------------------ *)
(** ** Further notions: sentence-terminal marks *)

(** The last character of [s] is one of [.], [!], [?]. *)
Fixpoint ends_with_mark (s : string) : bool :=
  match s with
  | EmptyString => false
  | String c EmptyString => is_mark c
  | String _ s' => ends_with_mark s'
  end.

(** [s] holds one of [.], [!], [?]. *)
Fixpoint has_mark (s : string) : bool :=
  match s with
  | EmptyString => false
  | String c s' => is_mark c || has_mark s'
  end.

(* ------------------------------------------------------------------ *)
(** ** Further notions: the synchronizer *)

(** The inputs on which [synchronize_with_audio] divides by zero: a zero
    rate with a sentence to estimate, or no sentence and a negative target
    (the ratio [audio_duration / 0]). *)
Definition raises_condition (sentences : list string) (A wpm : Q) : Prop :=
  (sentences <> [] /\ (wpm == 0)%Q) \/ (sentences = [] /\ (A < 0)%Q).

(* ------------------------------------------------------------------ *)
(** ** The professional variant and the text inputs *)

(** What [professional_align_text_with_audio] hands back once its inputs
    are read: the report that no sentence was found, or the number of
    entries and the SRT text of the summary.  A raised exception is caught
    by the function's handler and reported as an error message with no
    artifact. *)
Inductive professional_alignment : Type :=
| NoSentences
| Complete (subtitle_count : nat) (srt_content : string).

Section Professional.
Context {F : Type} `{PyNum F}.

(** [professional_align_text_with_audio], from the text
    [combine_text_inputs] returned and the duration [get_audio_duration]
    returned. *)
Definition professional_align_text_with_audio
  (nltk : option (string -> list string))
  (audio_duration : F) (text : string) (wpm : F)
  : res professional_alignment :=
  let sentences := split_text_into_sentences nltk text in
  match sentences with
  | [] => Ok NoSentences
  | _ =>
      srt_entries <- synchronize_with_audio sentences audio_duration wpm ;;
      srt_content <- generate_srt_content srt_entries ;;
      let subtitle_count := List.length srt_entries in
      Ok (Complete subtitle_count srt_content)
  end.

End Professional.

Section TextInputs.

(** The uploaded file objects, their truth value, and
    [extract_text_from_file], which reads the file system and is taken as
    given. *)
Variable file : Type.
Variable file_truthy : file -> bool.
Variable extract_text_from_file : option file -> option string * option string.

(** [extract_text_from_input(text_file=None, text_input=None)]; an argument
    is [None] or a value. *)
Definition extract_text_from_input
  (text_file : option file) (text_input : option string)
  : option string * option string :=
  let from_file :=
    if match text_file with Some f => file_truthy f | None => false end
    then extract_text_from_file text_file
    else (None, Some "No text provided. Please upload a file or type text.") in
  match text_input with
  | Some s =>
      if truthy s && truthy (strip s) then (Some (strip s), None)
      else from_file
  | None => from_file
  end.

(** [combine_text_inputs(text_file_upload=None, text_input_type=None)] *)
Definition combine_text_inputs
  (text_file_upload : option file) (text_input_type : option string)
  : option string * option string :=
  let from_file :=
    if match text_file_upload with Some f => file_truthy f | None => false end
    then extract_text_from_file text_file_upload
    else (None, Some "No text provided. Please upload a file or type text.") in
  match text_input_type with
  | Some s =>
      if truthy s && truthy (strip s) then (Some (strip s), None)
      else from_file
  | None => from_file
  end.

End TextInputs.

(* ================================================================== *)
(** ** Further notions: the emission loops in any arithmetic *)

(** The entries are linked from time [c]: each starts where the one before
    it ends, the first at [c] (the very values, in any arithmetic). *)
Fixpoint linked {F : Type} (c : F) (es : list (timed F)) : Prop :=
  match es with
  | [] => True
  | e :: es' => t_start e = c /\ linked (t_end e) es'
  end.

(** The value of a computation that returned, and [d] for one that raised. *)
Definition returned {X : Type} (d : X) (r : res X) : X :=
  match r with
  | Ok x => x
  | Raise _ => d
  end.

Section EmissionAny.
Context {F : Type} `{PyNum F}.

(** The estimate [total_words / wps] the loops of [synchronize_with_audio]
    compute for a block, before any clamp. *)
Definition block_estimate (wpm : F) (b : block) : res F :=
  let total_words := List.length (split (join " " b)) in
  wps <- truediv wpm (of_int 60) ;;
  truediv (of_int (Z.of_nat total_words)) wps.

(** The two duration rules: the clamp of the first pass and of the normal
    branch, and the scaling of the compression branch. *)
Definition clamp_estimate (duration : F) : F :=
  py_min (py_max duration (of_lit 1.5)) (of_lit 6).

Definition scale_estimate (compression_ratio duration : F) : F :=
  py_max (mul duration compression_ratio) (of_lit 1).

Variable A : F.
Variable dur : block -> F.

(** One iteration of an emission loop that does not break, the loop over a
    list of blocks, and the entries it appends, once the duration of a block
    is known to be [dur block]. *)
Definition emit_step (st : sync_state F) (b : block) : sync_state F :=
  let d := py_min (dur b) (sub A (current_time st)) in
  SyncState
    (srt_entries st
     ++ [Timed (subtitle_index st) (current_time st)
           (add (current_time st) d) b])
    (add (current_time st) d)
    (subtitle_index st + 1)%Z.

Definition emit_body (b : block) (st : sync_state F)
  : res (flow (sync_state F)) :=
  if le A (current_time st) then Ok (Break st) else Ok (Next (emit_step st b)).

Fixpoint emit_run (bs : list block) (st : sync_state F) : sync_state F :=
  match bs with
  | [] => st
  | b :: bs' =>
      if le A (current_time st) then st else emit_run bs' (emit_step st b)
  end.

Fixpoint entries_from (idx : Z) (c : F) (bs : list block) : list (timed F) :=
  match bs with
  | [] => []
  | b :: bs' =>
      if le A c then []
      else
        let e := add c (py_min (dur b) (sub A c)) in
        Timed idx c e b :: entries_from (idx + 1)%Z e bs'
  end.

End EmissionAny.

(** Four short sentences for a crowded target: the first needs the 1.0 s
    floor, the third is cut by the budget, the fourth finds no time left. *)
Definition crowded_sentences : list string :=
  ["a b"; "c d e f g h i j"; "k l"; "m n"].

(* ------------------------------------------------------------------ *)
(** ** Further notions: the equal division in any arithmetic *)

(** The entry the loop of the smart and dummy variants builds for the
    [i]-th block, in any arithmetic. *)
Definition entry_at {F : Type} `{PyNum F} (block_count : Z)
  (duration_per_block total_duration : F) (ib : nat * block) : timed F :=
  let i := Z.of_nat (fst ib) in
  Timed (i + 1)%Z (mul (of_int i) duration_per_block)
    (if (i =? block_count - 1)%Z then total_duration
     else mul (of_int (i + 1)%Z) duration_per_block)
    (snd ib).

(* ------------------------------------------------------------------ *)
(** ** Further notions: binary64 values and their stamps *)



(* ================================================================== *)
(** * Properties *)

(* ------------------------------------------------------------------ *)
(** ** Evaluations *)

Example split_long_sentence_12 :
  split_long_sentence "a b c d  e f g h i j k l"
  = [["a b c d"; "e f g h"]; ["i j k l"; ""]].
Proof. vm_compute. reflexivity. Qed.

Example split_long_sentence_5 :
  split_long_sentence " a b c d e " = [["a b c d"; "e"]].
Proof. vm_compute. reflexivity. Qed.

Example split_long_sentence_0 : split_long_sentence "" = [[""; ""]].
Proof. vm_compute. reflexivity. Qed.

Example group_chunks_3 :
  group_chunks (split_into_fixed_chunks "a b c d e f g h i" 4) 2
  = [["a b c d"; "e f g h"]; ["i"]].
Proof. vm_compute. reflexivity. Qed.

Example split_text_fallback :
  split_text_into_sentences None
    "Hello world! This is a test of the professional SRT generator."
  = ["Hello world!"; "This is a test of the professional SRT generator."].
Proof. vm_compute. reflexivity. Qed.

Example split_text_fallback_spaces :
  split_text_into_sentences None "  One.   Two?  no. "
  = ["One."; "Two?"; "no."].
Proof. vm_compute. reflexivity. Qed.

Example literal_3661_999 : of_lit (3661999 # 1000) = t_3661_999.
Proof. vm_compute. reflexivity. Qed.

Example format_zero_exact :
  format_srt_time (of_lit 0 : Q) = Ok "00:00:00,000".
Proof. vm_compute. reflexivity. Qed.

Example format_1_5_b64 :
  format_srt_time (of_lit 1.5 : float) = Ok "00:00:01,500".
Proof. vm_compute. reflexivity. Qed.

Example format_65_123_b64 :
  format_srt_time (of_lit (65123 # 1000) : float) = Ok "00:01:05,123".
Proof. vm_compute. reflexivity. Qed.

Example format_3661_999_exact :
  format_srt_time (of_lit (3661999 # 1000) : Q) = Ok "01:01:01,999".
Proof. vm_compute. reflexivity. Qed.

(** The compression branch scales the estimate [total_words / wps] itself,
    not its clamped value: two blocks of two words (0.727 s each, clamped to
    1.5 s each, 3.0 s in total) against a target of 2.5 s are scaled to
    0.606 s and floored to 1.0 s each, so the timeline ends at 2.0 s. *)
Example compression_scales_the_plain_estimate :
  synchronize_with_audio ["Hello world"; "Hello world"] (2.5 : Q) (165 : Q)
  = Ok [Timed 1 0%Q 1%Q ["Hello world"; ""];
        Timed 2 1%Q 2%Q ["Hello world"; ""]].
Proof. vm_compute. reflexivity. Qed.

(** Without the 6.0 s ceiling a compressed entry can last longer than 6 s. *)
Example compressed_entry_longer_than_six :
  synchronize_with_audio ["a b c d e f g h"; "a b c d e f g h"; "x"]
    (11 : Q) (1 : Q)
  = Ok [Timed 1 0%Q 11%Q ["a b c d"; "e f g h"]].
Proof. vm_compute. reflexivity. Qed.

(** In binary64 the single block of ["Hello world"] ends at 1.5 s as well. *)
Example hello_world_b64 :
  synchronize_with_audio ["Hello world"] (of_lit 30 : float) (of_int 165)
  = Ok [Timed 1 0%float 1.5%float ["Hello world"; ""]].
Proof. vm_compute. reflexivity. Qed.

(** In binary64 the cut [current_time + (audio_duration - current_time)]
    need not give back [audio_duration]: with a target of 3.9 s the second
    entry starts at 1.82 s, and [1.82 + (3.9 - 1.82)] rounds to the double
    just above 3.9.  The time stamp printed for it is still 00:00:03,900. *)
Example cut_rounds_above_target_b64 :
  of_lit 3.9 = 0x1.f333333333333p+1%float
  /\ synchronize_with_audio ["a b c d e f g"; "a b c d e f g h"]
       (of_lit 3.9 : float) (of_int 170)
     = Ok [Timed 1 0%float 0x1.d1eb851eb851fp+0%float ["a b c d"; "e f g"];
           Timed 2 0x1.d1eb851eb851fp+0%float 0x1.f333333333334p+1%float
             ["a b c d"; "e f g h"]]
  /\ format_srt_time 0x1.f333333333334p+1%float = Ok "00:00:03,900".
Proof.
  split; [vm_compute; reflexivity|]. split; vm_compute; reflexivity.
Qed.

(** In binary64 a positive rate divides by zero only when [wpm / 60]
    underflows, that is for subnormal rates. *)
Example subnormal_rate_underflows_b64 :
  estimate_duration "Hello world" 0x1p-1074%float = Raise ZeroDivisionError.
Proof. vm_compute. reflexivity. Qed.

(** A rate of zero raises, as does a negative target with no sentence. *)
Example zero_rate_raises :
  estimate_duration "Hello world" (0 : Q) = Raise ZeroDivisionError.
Proof. vm_compute. reflexivity. Qed.

Example empty_negative_target_raises :
  synchronize_with_audio [] (-1 : Q) (165 : Q) = Raise ZeroDivisionError.
Proof. vm_compute. reflexivity. Qed.

(* ------------------------------------------------------------------ *)
(** ** Strings and lists *)

Lemma truthy_true (s : string) : truthy s = true <-> s <> "".
Proof. destruct s; simpl; split; congruence. Qed.

Lemma lstrip_whitespace_only (s : string) :
  whitespace_only s = true -> lstrip s = "".
Proof.
  induction s as [|c s IH]; simpl; [reflexivity|].
  intros Hs. apply andb_true_iff in Hs as [Hc Hs]. rewrite Hc. auto.
Qed.

Lemma strip_whitespace_only (s : string) :
  whitespace_only s = true -> strip s = "".
Proof. intros Hs. unfold strip. now rewrite lstrip_whitespace_only. Qed.

Lemma rstrip_not_blank (s : string) :
  rstrip s <> "" -> whitespace_only (rstrip s) = false.
Proof.
  induction s as [|c s IH]; simpl; [congruence|].
  destruct (rstrip s) as [|c' r] eqn:E.
  - destruct (isspace c) eqn:Hc; [congruence|]. intros _. simpl.
    now rewrite Hc.
  - intros _.
    change (whitespace_only (String c (String c' r)))
      with (isspace c && whitespace_only (String c' r)).
    rewrite IH by congruence. apply andb_false_r.
Qed.

Lemma strip_filter_not_blank (l : list string) :
  Forall (fun s => whitespace_only s = false)
         (map strip (filter (fun s => truthy (strip s)) l)).
Proof.
  induction l as [|s l IH]; simpl; [constructor|].
  destruct (truthy (strip s)) eqn:E; simpl; auto.
  constructor; auto. apply rstrip_not_blank. now apply truthy_true.
Qed.

Lemma last_cons {X} (l : list X) (x d : X) : last (x :: l) d = last l x.
Proof.
  revert x d. induction l as [|y l IH]; intros x d; [reflexivity|].
  change (last (x :: y :: l) d) with (last (y :: l) d).
  rewrite (IH y d), (IH y x). reflexivity.
Qed.

Lemma last_Forall {X} (P : X -> Prop) (l : list X) (d : X) :
  Forall P l -> P d -> P (last l d).
Proof.
  intros HF. revert d.
  induction HF as [|x l Hx _ IH]; intros d Hd; [exact Hd|].
  rewrite last_cons. now apply IH.
Qed.

Lemma slice_length {X} (l : list X) (i j : nat) :
  List.length (slice l i j) = Nat.min (j - i) (List.length l - i).
Proof. unfold slice. now rewrite length_firstn, length_skipn. Qed.

Lemma range0_cons (n step : nat) :
  0 < n -> 0 < step -> exists l, range0 n step = 0 :: l.
Proof.
  intros Hn Hs. unfold range0.
  destruct ((n + step - 1) / step) as [|k] eqn:E.
  - apply Nat.div_small_iff in E; lia.
  - simpl. eauto.
Qed.

(** Every sentence yields at least one block. *)
Lemma split_long_sentence_nonempty (sentence : string) :
  split_long_sentence sentence <> [].
Proof.
  unfold split_long_sentence.
  destruct (8 <=? List.length (split sentence)) eqn:E8.
  - apply Nat.leb_le in E8.
    destruct (range0_cons (List.length (split sentence)) 8) as [l ->];
      [lia..|].
    cbn [flat_map]. rewrite slice_length.
    replace (Nat.min (0 + 8 - 0) (List.length (split sentence) - 0))
      with 8 by lia.
    discriminate.
  - destruct (4 <=? List.length (split sentence)); discriminate.
Qed.

Lemma blocks_of_nonempty (sentences : list string) :
  sentences <> [] -> blocks_of sentences <> [].
Proof.
  destruct sentences as [|s ss]; [congruence|]. intros _.
  unfold blocks_of. cbn [flat_map].
  pose proof (split_long_sentence_nonempty s).
  destruct (split_long_sentence s); [congruence | discriminate].
Qed.

(* ------------------------------------------------------------------ *)
(** ** Loops *)

Section Loops.
Context {X S : Type}.

Lemma for_loop_ext (f g : X -> S -> res (flow S)) (l : list X) (s : S) :
  (forall x s, f x s = g x s) -> for_loop f l s = for_loop g l s.
Proof.
  intros E. revert s. induction l as [|x l IH]; intros s; simpl;
    [reflexivity|].
  rewrite E. destruct (g x s) as [[s'|s']|e]; simpl; auto.
Qed.

Lemma for_loop_fold (f : S -> X -> S) (l : list X) (s : S) :
  for_loop (fun x s => Ok (Next (f s x))) l s = Ok (fold_left f l s).
Proof. revert s. induction l as [|x l IH]; intros s; simpl; auto. Qed.

End Loops.

Lemma for_loop_fold_nested {X Y S} (g : X -> list Y) (f : S -> Y -> S)
  (l : list X) (s : S) :
  for_loop (fun x s =>
              s' <- for_loop (fun y s => Ok (Next (f s y))) (g x) s ;;
              Ok (Next s'))
           l s
  = Ok (fold_left f (flat_map g l) s).
Proof.
  revert s. induction l as [|x l IH]; intros s; simpl; [reflexivity|].
  rewrite for_loop_fold. simpl. rewrite IH. now rewrite fold_left_app.
Qed.

(* ------------------------------------------------------------------ *)
(** ** Exact arithmetic *)

Module QFacts.

Lemma lt_spec (a b : Q) : lt a b = true <-> (a < b)%Q.
Proof.
  cbn. rewrite negb_true_iff. split.
  - intros E. apply Qnot_le_lt. intros L. apply Qle_bool_iff in L. congruence.
  - intros L. destruct (Qle_bool b a) eqn:E; [|reflexivity].
    apply Qle_bool_iff in E. lra.
Qed.

Lemma lt_false (a b : Q) : lt a b = false <-> (b <= a)%Q.
Proof. cbn. rewrite negb_false_iff. apply Qle_bool_iff. Qed.

Lemma le_spec (a b : Q) : le a b = true <-> (a <= b)%Q.
Proof. cbn. apply Qle_bool_iff. Qed.

Lemma le_false (a b : Q) : le a b = false <-> (b < a)%Q.
Proof.
  cbn. split.
  - intros E. apply Qnot_le_lt. intros L. apply Qle_bool_iff in L. congruence.
  - intros L. destruct (Qle_bool a b) eqn:E; [|reflexivity].
    apply Qle_bool_iff in E. lra.
Qed.

Lemma truediv_ok (a b : Q) : ~ (b == 0)%Q -> truediv a b = Ok (a / b)%Q.
Proof.
  intros Hb. cbn. unfold Q_truediv.
  destruct (Qeq_bool b 0) eqn:E; [|reflexivity].
  apply Qeq_bool_iff in E. contradiction.
Qed.

Lemma truediv_zero (a b : Q) :
  (b == 0)%Q -> truediv a b = Raise ZeroDivisionError.
Proof.
  intros Hb. cbn. unfold Q_truediv. apply Qeq_bool_iff in Hb. now rewrite Hb.
Qed.

Lemma py_max_spec (a b : Q) : (py_max a b == Qmax a b)%Q.
Proof.
  unfold py_max. destruct (lt a b) eqn:E.
  - apply lt_spec in E. rewrite Q.max_r; lra.
  - apply lt_false in E. rewrite Q.max_l; lra.
Qed.

Lemma py_min_spec (a b : Q) : (py_min a b == Qmin a b)%Q.
Proof.
  unfold py_min. destruct (lt b a) eqn:E.
  - apply lt_spec in E. rewrite Q.min_r; lra.
  - apply lt_false in E. rewrite Q.min_l; lra.
Qed.

Lemma floor_unique (x : Q) (z : Z) :
  (inject_Z z <= x < inject_Z (z + 1))%Q -> Qfloor x = z.
Proof.
  intros [L U]. pose proof (Qfloor_le x) as L'. pose proof (Qlt_floor x) as U'.
  assert (H1 : (inject_Z z < inject_Z (Qfloor x + 1))%Q) by lra.
  assert (H2 : (inject_Z (Qfloor x) < inject_Z (z + 1))%Q) by lra.
  rewrite <- Zlt_Qlt in H1, H2. lia.
Qed.

Lemma floor_bounds (x : Q) :
  (inject_Z (Qfloor x) <= x < inject_Z (Qfloor x) + 1)%Q.
Proof.
  pose proof (Qfloor_le x). pose proof (Qlt_floor x) as U.
  rewrite inject_Z_plus in U. change (inject_Z 1) with 1%Q in U. lra.
Qed.

Lemma to_int_floor (x : Q) : (0 <= x)%Q -> to_int x = Ok (Qfloor x).
Proof.
  intros Hx. cbn. unfold Q_to_int. f_equal. destruct x as [n d].
  cbn [Qnum Qden Qfloor]. apply Z.quot_div_nonneg; [|lia].
  unfold Qle in Hx. cbn in Hx. lia.
Qed.

Lemma to_int_inject (z : Z) : to_int (inject_Z z) = Ok z.
Proof. cbn. unfold Q_to_int. cbn. now rewrite Z.quot_1_r. Qed.

End QFacts.

Import QFacts.

#[local] Arguments le : simpl never.
#[local] Arguments lt : simpl never.
#[local] Arguments add : simpl never.
#[local] Arguments sub : simpl never.
#[local] Arguments mul : simpl never.
#[local] Arguments truediv : simpl never.
#[local] Arguments of_int : simpl never.
#[local] Arguments of_lit : simpl never.

(* ------------------------------------------------------------------ *)
(** ** The emission loops *)

Section EmissionFacts.
Variable A : Q.
Variable dur : block -> Q.

Lemma inner_run (bs : list block) (st : sync_state Q) :
  for_loop (body A dur) bs st = Ok (run A dur bs st).
Proof.
  revert st. induction bs as [|b bs IH]; intros st; simpl; [reflexivity|].
  unfold body at 1.
  destruct (le A (current_time st)); simpl; [reflexivity | apply IH].
Qed.

(** Once the budget is used up the state no longer changes: a [break] of the
    inner loop is followed by a [break] at the first block of every later
    sentence. *)
Lemma run_stopped (bs : list block) (st : sync_state Q) :
  le A (current_time st) = true -> run A dur bs st = st.
Proof. intros E. destruct bs; simpl; [reflexivity|]. now rewrite E. Qed.

Lemma run_app (bs1 bs2 : list block) (st : sync_state Q) :
  run A dur (bs1 ++ bs2) st = run A dur bs2 (run A dur bs1 st).
Proof.
  revert st. induction bs1 as [|b bs1 IH]; intros st; simpl; [reflexivity|].
  destruct (le A (current_time st)) eqn:E; [|apply IH].
  now rewrite run_stopped.
Qed.

Lemma outer_run (sentences : list string) (st : sync_state Q) :
  for_loop (fun sentence st =>
              st' <- for_loop (body A dur) (split_long_sentence sentence) st ;;
              Ok (Next st'))
           sentences st
  = Ok (run A dur (blocks_of sentences) st).
Proof.
  revert st. induction sentences as [|s ss IH]; intros st; simpl;
    [reflexivity|].
  rewrite inner_run. simpl. rewrite IH. now rewrite run_app.
Qed.

Lemma run_entries (bs : list block) (st : sync_state Q) :
  srt_entries (run A dur bs st)
  = srt_entries st ++ emitted A dur (subtitle_index st) (current_time st) bs.
Proof.
  revert st. induction bs as [|b bs IH]; intros st; simpl.
  - now rewrite app_nil_r.
  - destruct (le A (current_time st)); [now rewrite app_nil_r|].
    rewrite IH. simpl. now rewrite <- app_assoc.
Qed.

Lemma emitted_blocks idx c bs :
  map t_block (emitted A dur idx c bs)
  = firstn (List.length (emitted A dur idx c bs)) bs.
Proof.
  revert idx c. induction bs as [|b bs IH]; intros idx c; simpl;
    [reflexivity|].
  destruct (le A c); simpl; [reflexivity|]. now rewrite <- IH.
Qed.



Lemma emitted_durations idx c bs :
  Forall (fun e => t_end e == t_start e
                             + Qmin (dur (t_block e)) (A - t_start e))%Q
         (emitted A dur idx c bs).
Proof.
  revert idx c. induction bs as [|b bs IH]; intros idx c; simpl;
    [constructor|].
  destruct (le A c); [constructor|]. constructor; [|apply IH].
  simpl. rewrite py_min_spec. reflexivity.
Qed.

Lemma emitted_within idx c bs :
  Forall (fun e => t_start e < A /\ t_end e <= A)%Q (emitted A dur idx c bs).
Proof.
  revert idx c. induction bs as [|b bs IH]; intros idx c; simpl;
    [constructor|].
  destruct (le A c) eqn:E; [constructor|]. constructor; [|apply IH].
  apply le_false in E. simpl. split; [exact E|].
  change (c + py_min (dur b) (A - c) <= A)%Q. rewrite py_min_spec.
  pose proof (Q.le_min_r (dur b) (A - c)). lra.
Qed.

(** Blocks are left out only when the budget is used up. *)
Lemma emitted_exhausted idx c bs :
  List.length (emitted A dur idx c bs) < List.length bs ->
  (A <= last (map t_end (emitted A dur idx c bs)) c)%Q.
Proof.
  revert idx c. induction bs as [|b bs IH]; intros idx c;
    cbn [emitted List.length]; [lia|].
  destruct (le A c) eqn:E.
  - intros _. cbn [map last]. now apply le_spec.
  - cbn [map List.length t_end]. intros L. rewrite last_cons. apply IH. lia.
Qed.

(** When the durations are positive and fit into the remaining budget, no
    block is left out and no duration is cut. *)
Lemma emitted_fits idx c bs :
  Forall (fun b => 0 < dur b)%Q bs ->
  (c + Qsum (map dur bs) <= A)%Q ->
  List.length (emitted A dur idx c bs) = List.length bs
  /\ Forall (fun e => t_end e == t_start e + dur (t_block e))%Q
            (emitted A dur idx c bs)
  /\ (last (map t_end (emitted A dur idx c bs)) c
      == c + Qsum (map dur bs))%Q.
Proof.
  revert idx c. induction bs as [|b bs IH]; intros idx c Hpos Hfit.
  - simpl. repeat split; [constructor | lra].
  - inversion Hpos as [|? ? Hb Hbs]; subst. simpl in Hfit.
    assert (Hrest : (0 <= Qsum (map dur bs))%Q).
    { clear -Hbs. induction Hbs; simpl; lra. }
    cbn [emitted].
    assert (E : le A c = false) by (apply le_false; lra).
    rewrite E.
    assert (M : (py_min (dur b) (sub A c) == dur b)%Q).
    { rewrite py_min_spec. apply Q.min_l. change (dur b <= A - c)%Q. lra. }
    destruct (IH (idx + 1)%Z (add c (py_min (dur b) (sub A c))) Hbs)
      as (L & D & T).
    { change (c + py_min (dur b) (sub A c) + Qsum (map dur bs) <= A)%Q.
      rewrite M. lra. }
    split; [simpl; now rewrite L|]. split.
    + constructor; [|exact D]. simpl.
      change (c + py_min (dur b) (sub A c) == c + dur b)%Q. now rewrite M.
    + cbn [map]. rewrite last_cons. cbn [t_end]. rewrite T.
      change (c + py_min (dur b) (sub A c) + Qsum (map dur bs)
              == c + (dur b + Qsum (map dur bs)))%Q.
      rewrite M. lra.
Qed.

End EmissionFacts.



Lemma fold_add_sum (dur : block -> Q) (bs : list block) (t : Q) :
  (fold_left (fun t b => add t (dur b)) bs t == t + Qsum (map dur bs))%Q.
Proof.
  revert t. induction bs as [|b bs IH]; intros t; simpl; [lra|].
  rewrite IH. change (add t (dur b)) with (t + dur b)%Q. lra.
Qed.

(* ------------------------------------------------------------------ *)
(** ** The estimates at a non-zero rate *)

Lemma wps_nonzero (wpm : Q) : ~ (wpm == 0)%Q -> ~ (wpm / of_int 60 == 0)%Q.
Proof.
  intros Hw E. apply Hw. change (of_int 60 : Q) with (inject_Z 60) in E.
  assert (wpm == (wpm / inject_Z 60) * inject_Z 60)%Q as ->
      by (field; discriminate).
  rewrite E. reflexivity.
Qed.

Lemma estimate_zero_rate (text : string) (wpm : Q) :
  (wpm == 0)%Q -> estimate_duration text wpm = Raise ZeroDivisionError.
Proof.
  intros Hw. unfold estimate_duration.
  rewrite (truediv_ok wpm (of_int 60)) by discriminate. cbn [bind].
  rewrite truediv_zero; [reflexivity|]. rewrite Hw. reflexivity.
Qed.



Section Rate.
Variable wpm : Q.
Hypothesis wpm_nonzero : ~ (wpm == 0)%Q.

Lemma estimate_duration_block (b : block) :
  estimate_duration (join " " b) wpm = Ok (clamped wpm b).
Proof.
  unfold estimate_duration.
  rewrite (truediv_ok wpm (of_int 60)) by discriminate. simpl.
  rewrite truediv_ok by now apply wps_nonzero. reflexivity.
Qed.

Lemma total_fold (sentences : list string) :
  total_estimated_duration sentences wpm
  = Ok (fold_left (fun t b => add t (clamped wpm b)) (blocks_of sentences)
          (of_int 0)).
Proof.
  unfold total_estimated_duration, blocks_of.
  rewrite <- for_loop_fold_nested. apply for_loop_ext. intros s t.
  f_equal. apply for_loop_ext. intros b t'.
  rewrite (truediv_ok wpm (of_int 60)) by discriminate. simpl.
  rewrite truediv_ok by now apply wps_nonzero. reflexivity.
Qed.

Lemma total_value (sentences : list string) (T : Q) :
  total_estimated_duration sentences wpm = Ok T ->
  (T == Qsum (map (clamped wpm) (blocks_of sentences)))%Q.
Proof.
  intros HT. rewrite total_fold in HT. injection HT as <-.
  rewrite fold_add_sum. change (of_int 0 : Q) with 0%Q. lra.
Qed.

Lemma emit_normal_run (sentences : list string) (A : Q) (st : sync_state Q) :
  emit_normal sentences A wpm st
  = Ok (run A (clamped wpm) (blocks_of sentences) st).
Proof.
  unfold emit_normal. rewrite <- outer_run. apply for_loop_ext. intros s t.
  f_equal. apply for_loop_ext. intros b t'.
  rewrite (truediv_ok wpm (of_int 60)) by discriminate. simpl.
  rewrite truediv_ok by now apply wps_nonzero. reflexivity.
Qed.

Lemma emit_compressed_run (sentences : list string) (A ratio : Q)
  (st : sync_state Q) :
  emit_compressed sentences A wpm ratio st
  = Ok (run A (scaled wpm ratio) (blocks_of sentences) st).
Proof.
  unfold emit_compressed. rewrite <- outer_run. apply for_loop_ext.
  intros s t. f_equal. apply for_loop_ext. intros b t'.
  rewrite (truediv_ok wpm (of_int 60)) by discriminate. simpl.
  rewrite truediv_ok by now apply wps_nonzero. reflexivity.
Qed.

(** The normal branch: when the clamped estimates fit, the entries are the
    ones [emitted] lists. *)
Lemma synchronize_normal (sentences : list string) (A : Q) :
  (Qsum (map (clamped wpm) (blocks_of sentences)) <= A)%Q ->
  synchronize_with_audio sentences A wpm
  = Ok (emitted A (clamped wpm) 1 (of_lit 0) (blocks_of sentences)).
Proof.
  intros Hfit. unfold synchronize_with_audio.
  rewrite total_fold. cbn [bind].
  assert (E : lt A (fold_left (fun t b => add t (clamped wpm b))
                      (blocks_of sentences) (of_int 0)) = false).
  { apply lt_false. rewrite fold_add_sum.
    change (of_int 0 : Q) with 0%Q. lra. }
  rewrite E, emit_normal_run. cbn [bind].
  rewrite run_entries. reflexivity.
Qed.

End Rate.

Lemma clamped_bounds (wpm : Q) (b : block) : (1.5 <= clamped wpm b <= 6)%Q.
Proof.
  unfold clamped. rewrite py_min_spec, py_max_spec.
  change (of_lit 1.5 : Q) with 1.5%Q. change (of_lit 6 : Q) with 6%Q. split.
  - apply Q.min_glb; [apply Q.le_max_r | lra].
  - apply Q.le_min_r.
Qed.

Lemma clamped_positive (wpm : Q) (bs : list block) :
  Forall (fun b => 0 < clamped wpm b)%Q bs.
Proof.
  apply Forall_forall. intros b _. pose proof (clamped_bounds wpm b). lra.
Qed.


Lemma scaled_spec (wpm ratio : Q) (b : block) :
  (scaled wpm ratio b
   == Qmax (inject_Z (Z.of_nat (block_words b)) / (wpm / 60) * ratio) 1)%Q.
Proof. unfold scaled. rewrite py_max_spec. reflexivity. Qed.

(* ------------------------------------------------------------------ *)
(** ** TimelineSynchronizer *)




(* ------------------------------------------------------------------ *)
(** ** The emission loops in any arithmetic *)

Lemma for_loop_ext_in {X S} (f g : X -> S -> res (flow S)) (l : list X) (s : S) :
  (forall x, In x l -> forall s, f x s = g x s) ->
  for_loop f l s = for_loop g l s.
Proof.
  revert s. induction l as [|x l IH]; intros s E; [reflexivity|].
  cbn [for_loop]. rewrite (E x (or_introl eq_refl)).
  destruct (g x s) as [[s'|s']|e]; cbn [bind]; [|reflexivity|reflexivity].
  apply IH. intros y Hy. apply E. now right.
Qed.

(** A loop that folds the results of a computation that may raise: when it
    returns, every computation returned and the result is the fold. *)
Lemma for_loop_folds {X W S} (f : X -> res W) (g : S -> W -> S) (d : W)
  (l : list X) (s s' : S) :
  for_loop (fun x s => w <- f x ;; Ok (Next (g s w))) l s = Ok s' ->
  Forall (fun x => f x = Ok (returned d (f x))) l
  /\ s' = fold_left (fun s x => g s (returned d (f x))) l s.
Proof.
  revert s s'. induction l as [|x l IH]; intros s s' E.
  - cbn in E. injection E as <-. split; [constructor | reflexivity].
  - cbn [for_loop] in E. destruct (f x) as [w|e] eqn:Ef; [|discriminate].
    cbn [bind] in E. apply IH in E as [Hall E].
    split; [constructor; [now rewrite Ef | exact Hall]|].
    cbn [fold_left]. now rewrite Ef.
Qed.

Lemma for_loop_folds_nested {X Y W S} (blocks : X -> list Y) (f : Y -> res W)
  (g : S -> W -> S) (d : W) (l : list X) (s s' : S) :
  for_loop (fun x s =>
              s <- for_loop (fun y s => w <- f y ;; Ok (Next (g s w)))
                     (blocks x) s ;;
              Ok (Next s))
           l s = Ok s' ->
  Forall (fun y => f y = Ok (returned d (f y))) (flat_map blocks l)
  /\ s' = fold_left (fun s y => g s (returned d (f y))) (flat_map blocks l) s.
Proof.
  revert s s'. induction l as [|x l IH]; intros s s' E.
  - cbn in E. injection E as <-. split; [constructor | reflexivity].
  - cbn [for_loop] in E.
    destruct (for_loop _ (blocks x) s) as [s1|e] eqn:E1; [|discriminate].
    cbn [bind] in E. apply (for_loop_folds f g d) in E1 as [H1 E1].
    apply IH in E as [H2 E]. cbn [flat_map].
    split; [now apply Forall_app|]. rewrite fold_left_app, <- E1. exact E.
Qed.

Section EmissionAnyFacts.
Context {F : Type} `{PyNum F}.

(** The first pass folds the clamped estimates. *)
Lemma total_estimated_duration_folds (sentences : list string) (wpm T : F) :
  total_estimated_duration sentences wpm = Ok T ->
  Forall (fun b => block_estimate wpm b
                   = Ok (returned (of_int 0) (block_estimate wpm b)))
         (blocks_of sentences)
  /\ T = fold_left
           (fun t b =>
              add t (clamp_estimate
                       (returned (of_int 0) (block_estimate wpm b))))
           (blocks_of sentences) (of_int 0).
Proof.
  intros E. unfold blocks_of.
  apply (for_loop_folds_nested split_long_sentence (block_estimate wpm)
           (fun t x => add t (clamp_estimate x)) (of_int 0)).
  rewrite <- E. unfold total_estimated_duration.
  apply for_loop_ext. intros s t. f_equal. apply for_loop_ext. intros b t'.
  unfold block_estimate, clamp_estimate.
  destruct (truediv wpm (of_int 60)) as [wps|e]; cbn [bind]; [|reflexivity].
  destruct (truediv _ wps) as [x|e]; reflexivity.
Qed.

Variable A : F.
Variable dur : block -> F.

Lemma emit_inner_run (bs : list block) (st : sync_state F) :
  for_loop (emit_body A dur) bs st = Ok (emit_run A dur bs st).
Proof.
  revert st. induction bs as [|b bs IH]; intros st; cbn [for_loop emit_run];
    [reflexivity|].
  unfold emit_body at 1.
  destruct (le A (current_time st)); cbn [bind]; [reflexivity | apply IH].
Qed.

Lemma emit_run_stopped (bs : list block) (st : sync_state F) :
  le A (current_time st) = true -> emit_run A dur bs st = st.
Proof. intros E. destruct bs; cbn [emit_run]; [reflexivity|]. now rewrite E. Qed.

Lemma emit_run_app (bs1 bs2 : list block) (st : sync_state F) :
  emit_run A dur (bs1 ++ bs2) st = emit_run A dur bs2 (emit_run A dur bs1 st).
Proof.
  revert st. induction bs1 as [|b bs1 IH]; intros st; cbn [app emit_run];
    [reflexivity|].
  destruct (le A (current_time st)) eqn:E; [|apply IH].
  now rewrite emit_run_stopped.
Qed.

Lemma emit_run_entries (bs : list block) (st : sync_state F) :
  srt_entries (emit_run A dur bs st)
  = srt_entries st
    ++ entries_from A dur (subtitle_index st) (current_time st) bs.
Proof.
  revert st. induction bs as [|b bs IH]; intros st;
    cbn [emit_run entries_from].
  - now rewrite app_nil_r.
  - destruct (le A (current_time st)); [now rewrite app_nil_r|].
    rewrite IH. cbn. now rewrite <- app_assoc.
Qed.

Lemma entries_from_blocks idx c bs :
  map t_block (entries_from A dur idx c bs)
  = firstn (List.length (entries_from A dur idx c bs)) bs.
Proof.
  revert idx c. induction bs as [|b bs IH]; intros idx c; cbn [entries_from];
    [reflexivity|].
  destruct (le A c); cbn; [reflexivity|]. now rewrite <- IH.
Qed.

Lemma entries_from_indices idx c bs :
  map t_index (entries_from A dur idx c bs)
  = map (fun k => (idx + Z.of_nat k)%Z)
        (seq 0 (List.length (entries_from A dur idx c bs))).
Proof.
  revert idx c. induction bs as [|b bs IH]; intros idx c; cbn [entries_from];
    [reflexivity|].
  destruct (le A c); cbn; [reflexivity|].
  f_equal; [lia|]. rewrite IH, <- seq_shift, map_map.
  apply map_ext. intros k. lia.
Qed.

Lemma entries_from_linked idx c bs : linked c (entries_from A dur idx c bs).
Proof.
  revert idx c. induction bs as [|b bs IH]; intros idx c; cbn [entries_from];
    [exact I|].
  destruct (le A c); [exact I|]. split; [reflexivity | apply IH].
Qed.

(** Every entry passed the test [current_time >= audio_duration] and ends
    at [current_time + min(duration, audio_duration - current_time)]. *)
Lemma entries_from_assigned idx c bs :
  Forall (fun e =>
            le A (t_start e) = false
            /\ t_end e
               = add (t_start e)
                     (py_min (dur (t_block e)) (sub A (t_start e))))
         (entries_from A dur idx c bs).
Proof.
  revert idx c. induction bs as [|b bs IH]; intros idx c; cbn [entries_from];
    [constructor|].
  destruct (le A c) eqn:E; [constructor|].
  constructor; [split; [exact E | reflexivity] | apply IH].
Qed.

(** Blocks are left out only once the running time has reached the
    target. *)
Lemma entries_from_exhausted idx c bs :
  List.length (entries_from A dur idx c bs) < List.length bs ->
  le A (last (map t_end (entries_from A dur idx c bs)) c) = true.
Proof.
  revert idx c. induction bs as [|b bs IH]; intros idx c;
    cbn [entries_from List.length]; [lia|].
  destruct (le A c) eqn:E.
  - intros _. exact E.
  - cbn [map List.length t_end]. intros L. rewrite last_cons. apply IH. lia.
Qed.

End EmissionAnyFacts.

Section RegimesAny.
Context {F : Type} `{PyNum F}.
Variables A wpm : F.
Variable raw : block -> F.
Variable sentences : list string.

Lemma emit_outer_run (body : block -> sync_state F -> res (flow (sync_state F)))
  (dur : block -> F) (ss : list string) (st : sync_state F) :
  (forall b, In b (blocks_of ss) ->
   forall st, body b st = emit_body A dur b st) ->
  for_loop (fun sentence st =>
              st <- for_loop body (split_long_sentence sentence) st ;;
              Ok (Next st))
           ss st
  = Ok (emit_run A dur (blocks_of ss) st).
Proof.
  revert st. induction ss as [|s ss IH]; intros st E; [reflexivity|].
  cbn [for_loop]. unfold blocks_of in *. cbn [flat_map] in *.
  rewrite (for_loop_ext_in body (emit_body A dur))
    by (intros b Hb; apply E, in_or_app; now left).
  rewrite emit_inner_run. cbn [bind].
  rewrite IH by (intros b Hb; apply E, in_or_app; now right).
  now rewrite emit_run_app.
Qed.

Hypothesis raw_estimates :
  forall b, In b (blocks_of sentences) -> block_estimate wpm b = Ok (raw b).

Lemma emit_compressed_run_any (compression_ratio : F) (st : sync_state F) :
  emit_compressed sentences A wpm compression_ratio st
  = Ok (emit_run A (fun b => scale_estimate compression_ratio (raw b))
          (blocks_of sentences) st).
Proof.
  unfold emit_compressed. apply emit_outer_run. intros b Hb st'.
  pose proof (raw_estimates b Hb) as E. unfold block_estimate in E.
  destruct (truediv wpm (of_int 60)) as [wps|e]; [|discriminate].
  cbn [bind] in *. rewrite E. reflexivity.
Qed.

Lemma emit_normal_run_any (st : sync_state F) :
  emit_normal sentences A wpm st
  = Ok (emit_run A (fun b => clamp_estimate (raw b)) (blocks_of sentences) st).
Proof.
  unfold emit_normal. apply emit_outer_run. intros b Hb st'.
  pose proof (raw_estimates b Hb) as E. unfold block_estimate in E.
  destruct (truediv wpm (of_int 60)) as [wps|e]; [|discriminate].
  cbn [bind] in *. rewrite E. reflexivity.
Qed.

End RegimesAny.

(** What [synchronize_with_audio] returns in each branch, once the first
    pass has returned. *)
Lemma synchronize_compressed_any {F : Type} `{PyNum F}
  (sentences : list string) (A wpm T ratio : F) :
  total_estimated_duration sentences wpm = Ok T ->
  lt A T = true ->
  truediv A T = Ok ratio ->
  synchronize_with_audio sentences A wpm
  = Ok (entries_from A
          (fun b => scale_estimate ratio
                      (returned (of_int 0) (block_estimate wpm b)))
          1 (of_lit 0) (blocks_of sentences)).
Proof.
  intros HT Hlt Hratio.
  destruct (total_estimated_duration_folds sentences wpm T HT) as [Hraw _].
  rewrite Forall_forall in Hraw.
  unfold synchronize_with_audio. rewrite HT. cbn [bind].
  rewrite Hlt, Hratio. cbn [bind].
  rewrite (emit_compressed_run_any A wpm _ sentences Hraw). cbn [bind].
  rewrite emit_run_entries. reflexivity.
Qed.

Lemma synchronize_normal_any {F : Type} `{PyNum F}
  (sentences : list string) (A wpm T : F) :
  total_estimated_duration sentences wpm = Ok T ->
  lt A T = false ->
  synchronize_with_audio sentences A wpm
  = Ok (entries_from A
          (fun b => clamp_estimate
                      (returned (of_int 0) (block_estimate wpm b)))
          1 (of_lit 0) (blocks_of sentences)).
Proof.
  intros HT Hlt.
  destruct (total_estimated_duration_folds sentences wpm T HT) as [Hraw _].
  rewrite Forall_forall in Hraw.
  unfold synchronize_with_audio. rewrite HT. cbn [bind].
  rewrite Hlt.
  rewrite (emit_normal_run_any A wpm _ sentences Hraw). cbn [bind].
  rewrite emit_run_entries. reflexivity.
Qed.

Lemma indices_from_one_any {F : Type} (es : list (timed F)) :
  map t_index es
  = map (fun k => (1 + Z.of_nat k)%Z) (seq 0 (List.length es)) ->
  map t_index es = map Z.of_nat (seq 1 (List.length es)).
Proof.
  intros ->. rewrite <- seq_shift, map_map. apply map_ext. intros k. lia.
Qed.


(** The crowded sentences at 165 wpm against 2.5 s, in binary64: the naive
    total is 7.409 s; "a b" and the 8-word block are floored at 1.0 s, the
    third block is cut to the 0.5 s that are left, the fourth is left
    out. *)
Example crowded_b64 :
  total_estimated_duration crowded_sentences (of_int 165 : float)
  = Ok 0x1.da2e8ba2e8ba3p+2%float
  /\ synchronize_with_audio crowded_sentences (of_lit 2.5 : float) (of_int 165)
     = Ok [Timed 1 0%float 1%float ["a b"; ""];
           Timed 2 1%float 2%float ["c d e f"; "g h i j"];
           Timed 3 2%float 2.5%float ["k l"; ""]].
Proof. split; vm_compute; reflexivity. Qed.





(* ------------------------------------------------------------------ *)
(** ** LineBlockFormatter *)

Lemma range0_length (n step : nat) :
  List.length (range0 n step) = (n + step - 1) / step.
Proof. unfold range0. now rewrite length_map, length_seq. Qed.

Lemma window_blocks_length (words : list string) (i : nat) :
  List.length (window_blocks words i)
  = if 4 <=? List.length words - i then 1 else 0.
Proof.
  unfold window_blocks. rewrite slice_length.
  replace (i + 8 - i) with 8 by lia.
  destruct (4 <=? List.length words - i) eqn:E.
  - apply Nat.leb_le in E.
    replace (4 <=? Nat.min 8 (List.length words - i)) with true;
      [reflexivity|].
    symmetry. apply Nat.leb_le. lia.
  - apply Nat.leb_gt in E.
    replace (4 <=? Nat.min 8 (List.length words - i)) with false;
      [reflexivity|].
    symmetry. apply Nat.leb_gt. lia.
Qed.

Lemma full_windows (words : list string) (k : nat) :
  k * 8 <= List.length words ->
  List.length
    (flat_map (window_blocks words) (map (fun j => j * 8) (seq 0 k)))
  = k.
Proof.
  induction k as [|k IH]; intros Hk; [reflexivity|].
  rewrite seq_S, map_app, flat_map_app, length_app, IH by lia.
  cbn [map flat_map Nat.add]. rewrite app_nil_r, window_blocks_length.
  replace (4 <=? List.length words - k * 8) with true; [lia|].
  symmetry. apply Nat.leb_le. lia.
Qed.

(** How many windows and how many blocks a sentence of [n >= 8] words has:
    a last window of one to three words is counted among the windows and
    yields no block. *)
Lemma split_long_sentence_block_count (sentence : string) :
  let n := List.length (split sentence) in
  8 <= n ->
  List.length (range0 n 8) = n / 8 + (if n mod 8 =? 0 then 0 else 1)
  /\ List.length (split_long_sentence sentence)
     = n / 8 + (if 4 <=? n mod 8 then 1 else 0).
Proof.
  intros n Hn. pose proof (Nat.div_mod_eq n 8) as Hdm.
  pose proof (Nat.mod_upper_bound n 8 ltac:(lia)) as Hm.
  assert (HK : (n + 8 - 1) / 8 = n / 8 + (if n mod 8 =? 0 then 0 else 1)).
  { destruct (n mod 8 =? 0) eqn:E.
    - apply Nat.eqb_eq in E.
      symmetry. apply Nat.div_unique with (r := 7); lia.
    - apply Nat.eqb_neq in E.
      symmetry. apply Nat.div_unique with (r := n mod 8 - 1); lia. }
  split; [now rewrite range0_length|].
  unfold split_long_sentence. fold n.
  replace (8 <=? n) with true by (symmetry; apply Nat.leb_le; lia).
  change (flat_map _ (range0 n 8))
    with (flat_map (window_blocks (split sentence)) (range0 n 8)).
  unfold range0. rewrite HK.
  destruct (n mod 8 =? 0) eqn:E.
  - apply Nat.eqb_eq in E. rewrite E. cbn [Nat.leb]. rewrite !Nat.add_0_r.
    apply full_windows. fold n. lia.
  - apply Nat.eqb_neq in E.
    rewrite Nat.add_1_r, seq_S, map_app, flat_map_app.
    rewrite length_app, full_windows by (fold n; lia).
    cbn [map flat_map Nat.add]. rewrite app_nil_r, window_blocks_length.
    fold n. replace (n - n / 8 * 8) with (n mod 8) by lia. reflexivity.
Qed.

(** C3, at a sentence of the repository's own test.  The sentence has nine
    words; its second 8-word window holds the single word ["line."], which
    is fewer than four, so no block is produced for it: one block comes out
    and the last word of the sentence is displayed nowhere. *)
Theorem split_long_sentence_drops_short_window :
  let sentence := "Each subtitle should have exactly four words per line." in
  List.length (split sentence) = 9
  /\ In "line." (split sentence)
  /\ split_long_sentence sentence
     = [["Each subtitle should have"; "exactly four words per"]]
  /\ ~ In "line." (displayed_words (split_long_sentence sentence)).
Proof.
  cbv zeta. split; [vm_compute; reflexivity|].
  split; [vm_compute; tauto|].
  split; [vm_compute; reflexivity|].
  vm_compute. intros H. repeat (destruct H as [H|H]; [discriminate H|]).
  exact H.
Qed.

(* ------------------------------------------------------------------ *)
(** ** DurationEstimator *)



(* ------------------------------------------------------------------ *)
(** ** SubtitleSerializer: time stamps *)

Lemma Qmod_range (a b : Q) : (0 < b)%Q -> (0 <= Qmod a b < b)%Q.
Proof.
  intros Hb. unfold Qmod. pose proof (floor_bounds (a / b)) as [L U].
  assert (E : (a == a / b * b)%Q) by (field; lra).
  split.
  - apply (Qmult_le_compat_r _ _ b) in L; [|lra]. lra.
  - apply (Qmult_lt_compat_r _ _ b) in U; [|lra]. lra.
Qed.

(** In exact arithmetic the code computes the fields as the spec words
    them. *)
Lemma format_srt_time_spec (s : Q) : format_srt_time s = Ok (spec_stamp s).
Proof.
  unfold format_srt_time, spec_stamp.
  change (floordiv s (of_int 3600))
    with (Ok (inject_Z (Qfloor (s / 3600)))). cbn [bind].
  rewrite to_int_inject. cbn [bind].
  change (modulo s (of_int 3600)) with (Ok (Qmod s 3600)). cbn [bind].
  change (floordiv (Qmod s 3600) (of_int 60))
    with (Ok (inject_Z (Qfloor (Qmod s 3600 / 60)))). cbn [bind].
  rewrite to_int_inject. cbn [bind].
  change (modulo s (of_int 60)) with (Ok (Qmod s 60)). cbn [bind].
  rewrite to_int_floor by (apply Qmod_range; lra). cbn [bind].
  change (modulo s (of_int 1)) with (Ok (Qmod s 1)). cbn [bind].
  rewrite to_int_floor.
  - reflexivity.
  - pose proof (Qmod_range s 1).
    change (mul (Qmod s 1) (of_int 1000)) with (Qmod s 1 * 1000)%Q. lra.
Qed.

(** The fields decompose the time: minutes and seconds lie below 60, the
    milliseconds below 1000, and the stamp is the time cut to the
    millisecond below it. *)
Lemma fields_decompose (s : Q) :
  let h := spec_hours s in
  let m := spec_minutes s in
  let sec := spec_seconds s in
  let ms := spec_millis s in
  (0 <= m < 60)%Z /\ (0 <= sec < 60)%Z /\ (0 <= ms < 1000)%Z
  /\ (inject_Z (3600 * h + 60 * m + sec) + inject_Z ms / 1000 <= s)%Q
  /\ (s < inject_Z (3600 * h + 60 * m + sec) + inject_Z (ms + 1) / 1000)%Q.
Proof.
  intros h m sec ms.
  pose proof (floor_bounds (s / 3600)) as Hh.
  fold (spec_hours s) in Hh. fold h in Hh.
  assert (Hs : (inject_Z h * 3600 <= s < inject_Z h * 3600 + 3600)%Q).
  { assert (E : (s == s / 3600 * 3600)%Q) by (field; lra).
    destruct Hh as [L U]. split.
    - apply (Qmult_le_compat_r _ _ 3600) in L; lra.
    - apply (Qmult_lt_compat_r _ _ 3600) in U; lra. }
  assert (Er : (Qmod s 3600 == s - 3600 * inject_Z h)%Q) by reflexivity.
  pose proof (floor_bounds (Qmod s 3600 / 60)) as Hm.
  fold (spec_minutes s) in Hm. fold m in Hm.
  assert (Hm' : (inject_Z m * 60 <= Qmod s 3600 < inject_Z m * 60 + 60)%Q).
  { assert (E : (Qmod s 3600 == Qmod s 3600 / 60 * 60)%Q) by (field; lra).
    destruct Hm as [L U]. split.
    - apply (Qmult_le_compat_r _ _ 60) in L; lra.
    - apply (Qmult_lt_compat_r _ _ 60) in U; lra. }
  assert (E60 : Qfloor (s / 60) = (60 * h + m)%Z).
  { apply floor_unique. rewrite !inject_Z_plus, inject_Z_mult.
    change (inject_Z 60) with 60%Q. change (inject_Z 1) with 1%Q.
    assert (E : (s / 60 == s * (1 # 60))%Q) by (field; lra). rewrite E. lra. }
  assert (Es : (Qmod s 60 == s - 3600 * inject_Z h - 60 * inject_Z m)%Q).
  { unfold Qmod. rewrite E60, inject_Z_plus, inject_Z_mult.
    change (inject_Z 60) with 60%Q. lra. }
  pose proof (floor_bounds (Qmod s 60)) as Hsec.
  fold (spec_seconds s) in Hsec. fold sec in Hsec.
  assert (E1 : Qfloor (s / 1) = (3600 * h + 60 * m + sec)%Z).
  { apply floor_unique. rewrite !inject_Z_plus, !inject_Z_mult.
    change (inject_Z 60) with 60%Q. change (inject_Z 3600) with 3600%Q.
    change (inject_Z 1) with 1%Q.
    assert (E : (s / 1 == s)%Q) by (field; lra). rewrite E. lra. }
  assert (Ef : (Qmod s 1 == s - inject_Z (3600 * h + 60 * m + sec))%Q).
  { unfold Qmod. rewrite E1. lra. }
  pose proof (floor_bounds (Qmod s 1 * 1000)) as Hms.
  fold (spec_millis s) in Hms. fold ms in Hms.
  assert (R1 : (0 <= Qmod s 1 < 1)%Q) by (apply Qmod_range; lra).
  assert (R60 : (0 <= Qmod s 60 < 60)%Q) by (apply Qmod_range; lra).
  assert (Hm60 : (0 <= m < 60)%Z).
  { assert (m < 60 /\ -1 < m)%Z; [|lia].
    split; rewrite Zlt_Qlt; change (inject_Z (-1)) with (-1)%Q;
      change (inject_Z 60) with 60%Q; lra. }
  assert (Hs60 : (0 <= sec < 60)%Z).
  { assert (sec < 60 /\ -1 < sec)%Z; [|lia].
    split; rewrite Zlt_Qlt; change (inject_Z (-1)) with (-1)%Q;
      change (inject_Z 60) with 60%Q; lra. }
  assert (Hms1000 : (0 <= ms < 1000)%Z).
  { assert (ms < 1000 /\ -1 < ms)%Z; [|lia].
    split; rewrite Zlt_Qlt; change (inject_Z (-1)) with (-1)%Q;
      change (inject_Z 1000) with 1000%Q; lra. }
  assert (D : forall y : Q, (y / 1000 == y * (1 # 1000))%Q)
    by (intros y; field).
  rewrite Ef in Hms.
  repeat split; try lia.
  - rewrite D. lra.
  - rewrite D, (inject_Z_plus ms 1). change (inject_Z 1) with 1%Q. lra.
Qed.

Lemma length_append (a b : string) :
  String.length (a ++ b) = String.length a + String.length b.
Proof. induction a as [|c a IH]; simpl; [reflexivity | now rewrite IH]. Qed.

Lemma length_zeros (k : nat) : String.length (zeros k) = k.
Proof. induction k as [|k IH]; simpl; [reflexivity | now rewrite IH]. Qed.

(** A padded field is never narrower than its width. *)
Lemma pad0_at_least (w : nat) (n : Z) : w <= String.length (pad0 w n).
Proof. unfold pad0. rewrite !length_append, length_zeros. lia. Qed.

Lemma pad0_2_width (n : Z) :
  (0 <= n < 100)%Z -> String.length (pad0 2 n) = 2.
Proof.
  intros Hn.
  assert (A : forallb (fun k => String.length (pad0 2 (Z.of_nat k)) =? 2)
                (seq 0 100) = true) by (vm_compute; reflexivity).
  rewrite forallb_forall in A. specialize (A (Z.to_nat n)).
  rewrite Z2Nat.id in A by lia. apply Nat.eqb_eq, A, in_seq. lia.
Qed.

Lemma pad0_3_width (n : Z) :
  (0 <= n < 1000)%Z -> String.length (pad0 3 n) = 3.
Proof.
  intros Hn.
  assert (A : forallb (fun k => String.length (pad0 3 (Z.of_nat k)) =? 3)
                (seq 0 1000) = true) by (vm_compute; reflexivity).
  rewrite forallb_forall in A. specialize (A (Z.to_nat n)).
  rewrite Z2Nat.id in A by lia. apply Nat.eqb_eq, A, in_seq. lia.
Qed.





(* ------------------------------------------------------------------ *)
(** ** The smart and dummy variants *)

(** C6.  On every text the dummy variant computes what the smart variant
    computes when the probed duration is replaced by 60.0: both chunk the
    text with [split_into_fixed_chunks(text, 4)] and group the chunks with
    [group_chunks(chunks, 2)], and the timed entries, the text appended per
    entry and the resulting SRT text coincide.  This holds in either
    arithmetic. *)
Theorem dummy_is_smart_at_60 {F : Type} `{PyNum F} (text : string) :
  (forall blocks : list block,
     dummy_entries (F := F) blocks = smart_entries (of_lit 60) blocks)
  /\ (forall entries : list (timed F), dummy_srt entries = smart_srt entries)
  /\ dummy_align_text_with_audio (F := F) text
     = smart_align_text_with_audio (of_lit 60) text.
Proof. repeat split. Qed.

Section EqualDivision.
Variables (n : Z) (d total : Q).

Lemma entries_blocks (k : nat) (bs : list block) :
  map t_block
      (map (entry_of n d total) (combine (seq k (List.length bs)) bs))
  = bs.
Proof.
  revert k. induction bs as [|b bs IH]; intros k; simpl; [reflexivity|].
  now rewrite IH.
Qed.

Lemma entries_last (k : nat) (bs : list block) (d0 : Q) :
  bs <> [] -> (Z.of_nat (k + List.length bs) = n)%Z ->
  last (map t_end
            (map (entry_of n d total) (combine (seq k (List.length bs)) bs)))
       d0
  = total.
Proof.
  revert k d0. induction bs as [|b bs IH]; intros k d0 Hne Hn; [congruence|].
  cbn [List.length seq combine map]. rewrite last_cons.
  destruct bs as [|b' bs].
  - cbn. replace (Z.of_nat k =? n - 1)%Z with true; [reflexivity|].
    symmetry. apply Z.eqb_eq. cbn in Hn. lia.
  - apply IH; [discriminate|]. cbn [List.length] in *. lia.
Qed.

Lemma entries_durations (k : nat) (bs : list block) :
  (Z.of_nat (k + List.length bs) = n)%Z ->
  (total == inject_Z n * d)%Q ->
  Forall (fun e => t_end e - t_start e == d)%Q
         (map (entry_of n d total) (combine (seq k (List.length bs)) bs)).
Proof.
  intros Hn Ht. revert k Hn.
  induction bs as [|b bs IH]; intros k Hn; [constructor|].
  cbn [List.length seq combine map]. constructor.
  - unfold entry_of. cbn [fst snd t_end t_start].
    change (mul (of_int (Z.of_nat k)) d) with (inject_Z (Z.of_nat k) * d)%Q.
    destruct (Z.of_nat k =? n - 1)%Z eqn:E.
    + apply Z.eqb_eq in E. rewrite Ht.
      replace n with (Z.of_nat k + 1)%Z by lia.
      rewrite inject_Z_plus. change (inject_Z 1) with 1%Q. lra.
    + change (mul (of_int (Z.of_nat k + 1)) d)
        with (inject_Z (Z.of_nat k + 1) * d)%Q.
      rewrite inject_Z_plus. change (inject_Z 1) with 1%Q. lra.
  - apply IH. cbn [List.length] in Hn. lia.
Qed.

End EqualDivision.

Lemma smart_entries_floor (audio_duration : Q) (blocks : list block) :
  blocks <> [] ->
  (audio_duration < 2 * inject_Z (Z.of_nat (List.length blocks)))%Q ->
  overruns (smart_entries audio_duration blocks) blocks audio_duration.
Proof.
  intros Hne Hlt. unfold overruns, smart_entries.
  assert (E : lt audio_duration
                (mul (of_lit 2) (of_int (Z.of_nat (List.length blocks))))
              = true) by (apply lt_spec; exact Hlt).
  rewrite E. cbn [bind fst snd]. eexists. split; [reflexivity|].
  unfold enumerate.
  change (fun ib : nat * block => _)
    with (entry_of (Z.of_nat (List.length blocks)) (of_lit 2)
            (mul (of_lit 2) (of_int (Z.of_nat (List.length blocks))))).
  split; [apply entries_blocks|]. split; [|split].
  - apply entries_durations; [reflexivity|].
    change (2 * inject_Z (Z.of_nat (List.length blocks))
            == inject_Z (Z.of_nat (List.length blocks)) * 2)%Q. lra.
  - rewrite entries_last by (auto; reflexivity). reflexivity.
  - rewrite entries_last by (auto; reflexivity). exact Hlt.
Qed.

(** C10 (exact arithmetic). In the smart variant, whenever the probed
    duration is less than 2.0 s times the number of blocks, every block gets
    exactly 2.0 s and the last entry ends at 2.0 times the block count,
    strictly after the probed duration; the dummy variant does the same with
    60.0 in place of the probed duration. *)
Theorem equal_division_overrun (blocks : list block) :
  blocks <> [] ->
  (forall audio_duration : Q,
     (audio_duration < 2 * inject_Z (Z.of_nat (List.length blocks)))%Q ->
     overruns (smart_entries audio_duration blocks) blocks audio_duration)
  /\ ((60 < 2 * inject_Z (Z.of_nat (List.length blocks)))%Q ->
      overruns (dummy_entries blocks) blocks 60).
Proof.
  intros Hne. split.
  - intros a Ha. now apply smart_entries_floor.
  - intros H60.
    change (dummy_entries blocks) with (smart_entries 60%Q blocks).
    now apply smart_entries_floor.
Qed.

Lemma equal_division_overrun_witness :
  repeat ["a b c d"; "e f g h"] 31 <> []
  /\ (60 < 2 * inject_Z (Z.of_nat
                           (List.length (repeat ["a b c d"; "e f g h"] 31))))%Q
  /\ overruns (smart_entries 60%Q (repeat ["a b c d"; "e f g h"] 31))
       (repeat ["a b c d"; "e f g h"] 31) 60
  /\ overruns (dummy_entries (repeat ["a b c d"; "e f g h"] 31))
       (repeat ["a b c d"; "e f g h"] 31) 60.
Proof.
  split; [discriminate|]. split; [reflexivity|].
  destruct (equal_division_overrun (repeat ["a b c d"; "e f g h"] 31))
    as [Hsmart Hdummy]; [discriminate|].
  split; [apply Hsmart | apply Hdummy]; reflexivity.
Defined.

(* ------------------------------------------------------------------ *)
(** ** SentenceSegmenter *)

(** C7.  For every text, whichever strategy is selected and whatever the
    external tokenizer returns, [split_text_into_sentences] returns no empty
    and no whitespace-only entry; and for a text that is empty or consists
    of whitespace only it returns the empty list. *)
Theorem split_text_into_sentences_no_blank
  (nltk : option (string -> list string)) (text : string) :
  Forall (fun s => whitespace_only s = false)
         (split_text_into_sentences nltk text)
  /\ (whitespace_only text = true -> split_text_into_sentences nltk text = []).
Proof.
  split.
  - unfold split_text_into_sentences.
    destruct (negb (truthy text) || negb (truthy (strip text)));
      [constructor|].
    destruct nltk; apply strip_filter_not_blank.
  - intros Hs. unfold split_text_into_sentences.
    rewrite (strip_whitespace_only _ Hs). simpl. now rewrite orb_true_r.
Qed.

Lemma split_text_into_sentences_no_blank_witness :
  whitespace_only "   " = true
  /\ Forall (fun s => whitespace_only s = false)
            (split_text_into_sentences None "   ")
  /\ split_text_into_sentences None "   " = [].
Proof.
  split; [reflexivity|].
  destruct (split_text_into_sentences_no_blank None "   ") as [Hall Hblank].
  split; [exact Hall | apply Hblank; reflexivity].
Defined.

(* ------------------------------------------------------------------ *)
(** ** Audio duration probe *)

(** C8.  Whenever the probe fails (running the tool raises, as when it is
    not installed or times out; it returns a non-zero code; or its output
    does not parse as a number), [get_audio_duration] returns the default
    60.0 paired with no error, and raises nothing. *)
Theorem get_audio_duration_default {F : Type} `{PyNum F}
  (parse_float : string -> option F) (run : run_outcome) :
  probe_failed parse_float run = true ->
  get_audio_duration parse_float run = (of_lit 60, None).
Proof.
  destruct run as [|rc out]; simpl; [reflexivity|].
  destruct (rc =? 0)%Z; simpl; [|reflexivity].
  destruct (parse_float (strip out)); [discriminate | reflexivity].
Qed.

Lemma get_audio_duration_default_witness :
  probe_failed (fun _ : string => @None Q) (Completed 1 "") = true
  /\ get_audio_duration (fun _ : string => @None Q) (Completed 1 "")
     = (of_lit 60, None).
Proof.
  split; [reflexivity|].
  apply (get_audio_duration_default (fun _ : string => @None Q)
           (Completed 1 "")).
  reflexivity.
Defined.

(* ================================================================== *)
(** * Further properties *)

(* ------------------------------------------------------------------ *)
(** ** Words *)

Lemma no_space_app (a b : string) :
  no_space (a ++ b) = no_space a && no_space b.
Proof.
  induction a as [|c a IH]; simpl; [reflexivity|].
  rewrite IH. now rewrite andb_assoc.
Qed.

Lemma truthy_app_char (a : string) (c : ascii) :
  truthy (a ++ String c EmptyString) = true.
Proof. destruct a; reflexivity. Qed.

Lemma split_from_words (w s : string) :
  no_space w = true ->
  Forall (fun x => is_word x = true) (split_from w s).
Proof.
  revert w. induction s as [|c s IH]; intros w Hw; simpl.
  - destruct (truthy w) eqn:E; constructor; [|constructor].
    unfold is_word. now rewrite E, Hw.
  - destruct (isspace c) eqn:Hc.
    + destruct (truthy w) eqn:E.
      * constructor; [unfold is_word; now rewrite E, Hw|]. now apply IH.
      * now apply IH.
    + apply IH. rewrite no_space_app, Hw. simpl. now rewrite Hc.
Qed.

(** The words of [s.split()] are non-empty and hold no whitespace. *)
Lemma split_words (s : string) :
  Forall (fun x => is_word x = true) (split s).
Proof. now apply split_from_words. Qed.

Lemma append_assoc (a b c : string) : ((a ++ b) ++ c = a ++ (b ++ c))%string.
Proof. induction a as [|x a IH]; simpl; [reflexivity | now rewrite IH]. Qed.

Lemma append_nil_r (a : string) : (a ++ "" = a)%string.
Proof. induction a as [|x a IH]; simpl; [reflexivity | now rewrite IH]. Qed.

Lemma split_from_no_space (acc w rest : string) :
  no_space w = true ->
  split_from acc (w ++ rest) = split_from (acc ++ w) rest.
Proof.
  revert acc. induction w as [|c w IH]; intros acc Hw; simpl.
  - now rewrite append_nil_r.
  - simpl in Hw. apply andb_true_iff in Hw as [Hc Hw].
    apply negb_true_iff in Hc. rewrite Hc, IH by exact Hw.
    now rewrite append_assoc.
Qed.

Lemma split_from_app_space (acc x y : string) :
  split_from acc (x ++ " " ++ y) = split_from acc x ++ split y.
Proof.
  revert acc. induction x as [|c x IH]; intros acc; simpl.
  - destruct (truthy acc); reflexivity.
  - destruct (isspace c).
    + destruct (truthy acc); simpl; now rewrite IH.
    + apply IH.
Qed.

(** Splitting a [" ".join] splits every piece. *)
Lemma split_join (l : list string) :
  split (join " " l) = flat_map split l.
Proof.
  induction l as [|x l IH]; [reflexivity|].
  destruct l as [|y l].
  - simpl. now rewrite app_nil_r.
  - change (join " " (x :: y :: l)) with (x ++ " " ++ join " " (y :: l))%string.
    unfold split at 1. rewrite split_from_app_space.
    fold (split x). change (split_from "" (join " " (y :: l)))
      with (split (join " " (y :: l))).
    rewrite IH. reflexivity.
Qed.

Lemma split_word (w : string) : is_word w = true -> split w = [w].
Proof.
  unfold is_word. intros H. apply andb_true_iff in H as [Ht Hn].
  unfold split. rewrite <- (append_nil_r w) at 1.
  rewrite split_from_no_space by exact Hn. simpl. now rewrite Ht.
Qed.

(** Joining words with spaces and splitting again gives the words back. *)
Lemma split_join_words (ws : list string) :
  Forall (fun x => is_word x = true) ws -> split (join " " ws) = ws.
Proof.
  intros H. rewrite split_join. induction H as [|w ws Hw _ IH]; [reflexivity|].
  simpl. now rewrite split_word, IH.
Qed.

(* ------------------------------------------------------------------ *)
(** ** Slices and windows *)

Lemma Forall_firstn {X} (P : X -> Prop) (n : nat) (l : list X) :
  Forall P l -> Forall P (firstn n l).
Proof.
  intros H. revert n. induction H as [|x l Hx _ IH]; intros [|n]; simpl;
    constructor; auto.
Qed.

Lemma Forall_skipn {X} (P : X -> Prop) (n : nat) (l : list X) :
  Forall P l -> Forall P (skipn n l).
Proof.
  intros H. revert n. induction H as [|x l Hx Hl IH]; intros [|n]; simpl;
    auto.
Qed.

Lemma firstn_plus {X} (a b : nat) (l : list X) :
  firstn (a + b) l = firstn a l ++ firstn b (skipn a l).
Proof.
  revert l. induction a as [|a IH]; intros l; [reflexivity|].
  destruct l as [|x l]; simpl; [now rewrite firstn_nil | now rewrite IH].
Qed.

Lemma slice_words {X} (P : X -> Prop) (l : list X) (i j : nat) :
  Forall P l -> Forall P (slice l i j).
Proof. intros H. unfold slice. now apply Forall_firstn, Forall_skipn. Qed.

Lemma slice_slice {X} (l : list X) (i a b : nat) :
  a <= b -> b <= 8 ->
  slice (slice l i (i + 8)) a b = slice l (i + a) (i + b).
Proof.
  intros Hab Hb. unfold slice.
  replace (i + 8 - i) with 8 by lia. replace (i + b - (i + a)) with (b - a) by lia.
  rewrite skipn_firstn_comm, firstn_firstn, skipn_skipn.
  replace (Nat.min (b - a) (8 - a)) with (b - a) by lia.
  now rewrite (Nat.add_comm a i).
Qed.

Lemma slice_split {X} (l : list X) (i j k : nat) :
  i <= j -> j <= k -> slice l i j ++ slice l j k = slice l i k.
Proof.
  intros Hij Hjk. unfold slice.
  replace (k - i) with ((j - i) + (k - j)) by lia.
  rewrite firstn_plus, skipn_skipn.
  now replace (j - i + i) with j by lia.
Qed.

Lemma slice_all {X} (l : list X) (j : nat) :
  List.length l <= j -> slice l 0 j = l.
Proof. intros H. unfold slice. simpl. rewrite Nat.sub_0_r. now apply firstn_all2. Qed.

Lemma slice_prefix {X} (l : list X) (j : nat) : slice l 0 j = firstn j l.
Proof. unfold slice. simpl. now rewrite Nat.sub_0_r. Qed.

(** The words a two-line block made of two word lists displays. *)
Lemma block_displays (a b : list string) :
  Forall (fun x => is_word x = true) a ->
  Forall (fun x => is_word x = true) b ->
  split (join " " [join " " a; join " " b]) = a ++ b.
Proof.
  intros Ha Hb. rewrite split_join. simpl.
  now rewrite !split_join_words, app_nil_r.
Qed.

Lemma block_displays_one (a : list string) :
  Forall (fun x => is_word x = true) a ->
  split (join " " [join " " a; ""]) = a.
Proof.
  intros Ha. rewrite <- (app_nil_r a) at 2.
  exact (block_displays a [] Ha (Forall_nil _)).
Qed.

Lemma window_displays (words : list string) (i : nat) :
  Forall (fun x => is_word x = true) words ->
  displayed_words (window_blocks words i)
  = if 4 <=? List.length words - i then slice words i (i + 8) else [].
Proof.
  intros Hw. unfold window_blocks. rewrite slice_length.
  replace (i + 8 - i) with 8 by lia.
  destruct (4 <=? List.length words - i) eqn:E.
  - apply Nat.leb_le in E.
    replace (4 <=? Nat.min 8 (List.length words - i)) with true
      by (symmetry; apply Nat.leb_le; lia).
    unfold displayed_words. cbn [flat_map]. rewrite app_nil_r.
    rewrite block_displays by (apply slice_words, slice_words, Hw).
    rewrite !slice_slice by lia. rewrite slice_split by lia.
    now rewrite Nat.add_0_r.
  - apply Nat.leb_gt in E.
    replace (4 <=? Nat.min 8 (List.length words - i)) with false
      by (symmetry; apply Nat.leb_gt; lia).
    reflexivity.
Qed.

Lemma displayed_flat_map {X} (f : X -> list block) (l : list X) :
  displayed_words (flat_map f l) = flat_map (fun x => displayed_words (f x)) l.
Proof.
  unfold displayed_words. induction l as [|x l IH]; [reflexivity|].
  cbn [flat_map]. rewrite flat_map_app. f_equal. exact IH.
Qed.

Lemma full_windows_display (words : list string) (k : nat) :
  Forall (fun x => is_word x = true) words ->
  k * 8 <= List.length words ->
  flat_map (fun i => displayed_words (window_blocks words i))
           (map (fun j => j * 8) (seq 0 k))
  = firstn (k * 8) words.
Proof.
  intros Hw. induction k as [|k IH]; intros Hk; [reflexivity|].
  rewrite seq_S, map_app, flat_map_app, IH by lia.
  cbn [map flat_map Nat.add]. rewrite app_nil_r, window_displays by exact Hw.
  replace (4 <=? List.length words - k * 8) with true
    by (symmetry; apply Nat.leb_le; lia).
  rewrite <- slice_prefix, slice_split by lia. rewrite slice_prefix.
  f_equal. lia.
Qed.

(** Every block of [split_long_sentence] has exactly two lines. *)
Lemma split_long_sentence_two_lines (sentence : string) :
  Forall (fun b : block => List.length b = 2) (split_long_sentence sentence).
Proof.
  unfold split_long_sentence.
  destruct (8 <=? List.length (split sentence)).
  - apply Forall_flat_map, Forall_forall. intros i _.
    destruct (4 <=? _); repeat constructor.
  - destruct (4 <=? List.length (split sentence)); repeat constructor.
Qed.

(** The words the blocks of [split_long_sentence] display: the first
    [kept_words n] words of the sentence. *)
Lemma split_long_sentence_kept (sentence : string) :
  displayed_words (split_long_sentence sentence)
  = firstn (kept_words (List.length (split sentence))) (split sentence).
Proof.
  pose proof (split_words sentence) as Hw.
  set (words := split sentence) in *. set (n := List.length words).
  unfold split_long_sentence, kept_words. fold words. fold n.
  destruct (8 <=? n) eqn:E8.
  - apply Nat.leb_le in E8.
    replace (n <? 8) with false by (symmetry; apply Nat.ltb_ge; lia).
    change (flat_map _ (range0 n 8))
      with (flat_map (window_blocks words) (range0 n 8)).
    rewrite displayed_flat_map. unfold range0.
    pose proof (Nat.div_mod_eq n 8) as Hdm.
    pose proof (Nat.mod_upper_bound n 8 ltac:(lia)) as Hm.
    assert (HK : (n + 8 - 1) / 8 = n / 8 + (if n mod 8 =? 0 then 0 else 1)).
    { destruct (n mod 8 =? 0) eqn:E.
      - apply Nat.eqb_eq in E.
        symmetry. apply Nat.div_unique with (r := 7); lia.
      - apply Nat.eqb_neq in E.
        symmetry. apply Nat.div_unique with (r := n mod 8 - 1); lia. }
    rewrite HK. destruct (n mod 8 =? 0) eqn:E.
    + apply Nat.eqb_eq in E. rewrite E. cbn [Nat.ltb Nat.leb].
      rewrite Nat.add_0_r, Nat.sub_0_r.
      rewrite full_windows_display by (try exact Hw; fold n; lia).
      f_equal. lia.
    + apply Nat.eqb_neq in E.
      rewrite Nat.add_1_r, seq_S, map_app, flat_map_app.
      rewrite full_windows_display by (try exact Hw; fold n; lia).
      cbn [map flat_map Nat.add]. rewrite app_nil_r, window_displays by exact Hw.
      fold n. replace (n - n / 8 * 8) with (n mod 8) by lia.
      destruct (n mod 8 <? 4) eqn:E4.
      * apply Nat.ltb_lt in E4.
        replace (4 <=? n mod 8) with false by (symmetry; apply Nat.leb_gt; lia).
        rewrite app_nil_r. f_equal. lia.
      * apply Nat.ltb_ge in E4.
        replace (4 <=? n mod 8) with true by (symmetry; apply Nat.leb_le; lia).
        rewrite <- slice_prefix, slice_split by lia.
        rewrite slice_all by (fold n; lia). symmetry. now apply firstn_all.
  - apply Nat.leb_gt in E8.
    replace (n <? 8) with true by (symmetry; apply Nat.ltb_lt; lia).
    replace (firstn n words) with words by (symmetry; apply firstn_all).
    destruct (4 <=? n) eqn:E4.
    + apply Nat.leb_le in E4. unfold displayed_words. cbn [flat_map].
      rewrite app_nil_r.
      destruct (4 <? n) eqn:E5.
      * rewrite block_displays by (apply slice_words, Hw).
        rewrite slice_split by lia. apply slice_all. fold n. lia.
      * apply Nat.ltb_ge in E5.
        rewrite block_displays_one by (apply slice_words, Hw).
        apply slice_all. fold n. lia.
    + unfold displayed_words. cbn [flat_map]. rewrite app_nil_r.
      now apply block_displays_one.
Qed.

Lemma kept_words_all (n : nat) :
  kept_words n = n <-> n < 8 \/ n mod 8 = 0 \/ 4 <= n mod 8.
Proof.
  unfold kept_words. pose proof (Nat.mod_upper_bound n 8 ltac:(lia)) as Hm.
  pose proof (Nat.div_mod_eq n 8) as Hd.
  destruct (n <? 8) eqn:E8; [apply Nat.ltb_lt in E8; intuition lia|].
  apply Nat.ltb_ge in E8.
  destruct (n mod 8 <? 4) eqn:E4;
    [apply Nat.ltb_lt in E4 | apply Nat.ltb_ge in E4]; intuition lia.
Qed.

Lemma firstn_whole {X} (l : list X) (k : nat) :
  firstn k l = l <-> List.length l <= k.
Proof.
  split; [|apply firstn_all2].
  intros E. apply (f_equal (@List.length X)) in E.
  rewrite length_firstn in E. lia.
Qed.

(** X1.  The words the blocks of [split_long_sentence] display are a prefix
    of the [n] words of the sentence, in order: its first [n] words when
    [n < 8], and otherwise all but the [n mod 8] words of the last 8-word
    window when that window holds 1 to 3 words.  Every word is displayed
    exactly when [n < 8], [n mod 8 = 0] or [n mod 8 >= 4]. *)
Theorem split_long_sentence_displays (sentence : string) :
  let n := List.length (split sentence) in
  displayed_words (split_long_sentence sentence)
  = firstn (if n <? 8 then n else if n mod 8 <? 4 then n - n mod 8 else n)
           (split sentence)
  /\ (displayed_words (split_long_sentence sentence) = split sentence
      <-> n < 8 \/ n mod 8 = 0 \/ 4 <= n mod 8).
Proof.
  intros n. split; [apply split_long_sentence_kept|].
  rewrite split_long_sentence_kept, firstn_whole, <- kept_words_all.
  fold n. unfold kept_words.
  pose proof (Nat.mod_upper_bound n 8 ltac:(lia)) as Hm.
  destruct (n <? 8); [lia|]. destruct (n mod 8 <? 4); lia.
Qed.

(** X2.  Every block of [split_long_sentence] is a pair of lines; the first
    line holds [min(4, n)] words and the second at most 4, [n] being the
    number of words of the sentence.  A sentence of fewer than 8 words gives
    one block (also when it has no word at all); one of 8 or more gives one
    block per full 8-word window and one more when at least 4 words
    remain. *)
Theorem split_long_sentence_shape (sentence : string) :
  let n := List.length (split sentence) in
  Forall (fun b : block =>
            exists line1 line2,
              b = [line1; line2]
              /\ List.length (split line1) = Nat.min 4 n
              /\ List.length (split line2) <= 4)
         (split_long_sentence sentence)
  /\ List.length (split_long_sentence sentence)
     = if n <? 8 then 1 else n / 8 + (if 4 <=? n mod 8 then 1 else 0).
Proof.
  intros n. pose proof (split_words sentence) as Hw.
  assert (Hn : List.length (split sentence) = n) by reflexivity.
  clearbody n. split.
  - unfold split_long_sentence. rewrite Hn.
    destruct (8 <=? n) eqn:E8.
    + apply Nat.leb_le in E8.
      apply Forall_flat_map, Forall_forall. intros i _.
      destruct (4 <=? List.length (slice (split sentence) i (i + 8))) eqn:E4;
        [|constructor].
      apply Nat.leb_le in E4. constructor; [|constructor].
      eexists _, _. split; [reflexivity|].
      rewrite !split_join_words by (apply slice_words, slice_words, Hw).
      rewrite slice_length in E4. rewrite !slice_length. lia.
    + apply Nat.leb_gt in E8. destruct (4 <=? n) eqn:E4.
      * apply Nat.leb_le in E4. constructor; [|constructor].
        eexists _, _. split; [reflexivity|].
        rewrite split_join_words by (apply slice_words, Hw).
        rewrite slice_length. split; [lia|].
        destruct (4 <? n); [|cbn; lia].
        rewrite split_join_words by (apply slice_words, Hw).
        rewrite slice_length. lia.
      * apply Nat.leb_gt in E4. constructor; [|constructor].
        eexists _, _. split; [reflexivity|].
        rewrite split_join_words by exact Hw. split; [lia|cbn; lia].
  - destruct (n <? 8) eqn:E.
    + apply Nat.ltb_lt in E. unfold split_long_sentence. rewrite Hn.
      replace (8 <=? n) with false by (symmetry; apply Nat.leb_gt; lia).
      destruct (4 <=? n); reflexivity.
    + apply Nat.ltb_ge in E. subst n.
      now apply (split_long_sentence_block_count sentence).
Qed.

(* ------------------------------------------------------------------ *)
(** ** Chunks and groups *)

Lemma windows_prefix {X} (l : list X) (k j : nat) :
  flat_map (fun i => slice l i (i + k)) (map (fun q => q * k) (seq 0 j))
  = firstn (j * k) l.
Proof.
  induction j as [|j IH]; [reflexivity|].
  rewrite seq_S, map_app, flat_map_app, IH.
  cbn [map flat_map Nat.add]. rewrite app_nil_r.
  unfold slice. replace (j * k + k - j * k) with k by lia.
  rewrite <- firstn_plus. f_equal. lia.
Qed.

Lemma range0_covers (n k : nat) : 0 < k -> n <= (n + k - 1) / k * k.
Proof.
  intros Hk. pose proof (Nat.div_mod_eq (n + k - 1) k) as E.
  pose proof (Nat.mod_upper_bound (n + k - 1) k ltac:(lia)) as U. nia.
Qed.

(** The windows [l[i:i+k]] for [i] in [range(0, len(l), k)] cover [l]. *)
Lemma windows_cover {X} (l : list X) (k : nat) :
  0 < k ->
  flat_map (fun i => slice l i (i + k)) (range0 (List.length l) k) = l.
Proof.
  intros Hk. unfold range0. rewrite windows_prefix.
  apply firstn_all2. now apply range0_covers.
Qed.

Lemma range0_below (n k i : nat) : 0 < k -> In i (range0 n k) -> i < n.
Proof.
  intros Hk Hi. unfold range0 in Hi. apply in_map_iff in Hi as (q & <- & Hq).
  apply in_seq in Hq.
  pose proof (Nat.div_mod_eq (n + k - 1) k) as E.
  pose proof (Nat.mod_upper_bound (n + k - 1) k ltac:(lia)) as U. nia.
Qed.

Lemma window_size {X} (l : list X) (k i : nat) :
  0 < k -> In i (range0 (List.length l) k) ->
  1 <= List.length (slice l i (i + k)) <= k.
Proof.
  intros Hk Hi. apply range0_below in Hi; [|exact Hk].
  rewrite slice_length. lia.
Qed.

Lemma flat_map_split_chunks (words : list string) (ixs : list nat) (k : nat) :
  Forall (fun x => is_word x = true) words ->
  flat_map split (map (fun i => join " " (slice words i (i + k))) ixs)
  = flat_map (fun i => slice words i (i + k)) ixs.
Proof.
  intros Hw. induction ixs as [|i ixs IH]; [reflexivity|].
  cbn [map flat_map]. rewrite IH. f_equal.
  apply split_join_words. now apply slice_words.
Qed.

(** X3.  For a positive [chunk_size], [split_into_fixed_chunks] loses no
    word and keeps the order: splitting the chunks again gives the words of
    the text; every chunk holds between 1 and [chunk_size] words, and there
    are [ceil(n / chunk_size)] chunks for a text of [n] words. *)
Theorem split_into_fixed_chunks_words (text : string) (chunk_size : nat) :
  0 < chunk_size ->
  flat_map split (split_into_fixed_chunks text chunk_size) = split text
  /\ Forall (fun c => 1 <= List.length (split c) <= chunk_size)
            (split_into_fixed_chunks text chunk_size)
  /\ List.length (split_into_fixed_chunks text chunk_size)
     = (List.length (split text) + chunk_size - 1) / chunk_size.
Proof.
  intros Hk. pose proof (split_words text) as Hw.
  unfold split_into_fixed_chunks. split; [|split].
  - rewrite flat_map_split_chunks by exact Hw. now apply windows_cover.
  - apply Forall_forall. intros c Hc.
    apply in_map_iff in Hc as (i & <- & Hi).
    rewrite split_join_words by now apply slice_words.
    now apply window_size.
  - now rewrite length_map, range0_length.
Qed.

Lemma split_into_fixed_chunks_words_witness :
  0 < 4
  /\ flat_map split (split_into_fixed_chunks "a b c d e f g h i" 4)
     = split "a b c d e f g h i"
  /\ Forall (fun c => 1 <= List.length (split c) <= 4)
            (split_into_fixed_chunks "a b c d e f g h i" 4)
  /\ List.length (split_into_fixed_chunks "a b c d e f g h i" 4)
     = (List.length (split "a b c d e f g h i") + 4 - 1) / 4.
Proof.
  split; [lia|].
  apply (split_into_fixed_chunks_words "a b c d e f g h i" 4). lia.
Defined.

(** X4.  For a positive [lines_per_block], [group_chunks] keeps every
    chunk, in order: the concatenation of the groups is the list of chunks;
    every group holds between 1 and [lines_per_block] chunks, and there are
    [ceil(len(chunks) / lines_per_block)] groups. *)
Theorem group_chunks_partition (chunks : list string) (lines_per_block : nat) :
  0 < lines_per_block ->
  List.concat (group_chunks chunks lines_per_block) = chunks
  /\ Forall (fun b : block => 1 <= List.length b <= lines_per_block)
            (group_chunks chunks lines_per_block)
  /\ List.length (group_chunks chunks lines_per_block)
     = (List.length chunks + lines_per_block - 1) / lines_per_block.
Proof.
  intros Hk. unfold group_chunks. split; [|split].
  - rewrite <- flat_map_concat_map. now apply windows_cover.
  - apply Forall_forall. intros b Hb.
    apply in_map_iff in Hb as (i & <- & Hi). now apply window_size.
  - now rewrite length_map, range0_length.
Qed.

Lemma group_chunks_partition_witness :
  0 < 2
  /\ List.concat (group_chunks ["a b c d"; "e f g h"; "i"] 2)
     = ["a b c d"; "e f g h"; "i"]
  /\ Forall (fun b : block => 1 <= List.length b <= 2)
            (group_chunks ["a b c d"; "e f g h"; "i"] 2)
  /\ List.length (group_chunks ["a b c d"; "e f g h"; "i"] 2)
     = (List.length ["a b c d"; "e f g h"; "i"] + 2 - 1) / 2.
Proof.
  split; [lia|].
  apply (group_chunks_partition ["a b c d"; "e f g h"; "i"] 2). lia.
Defined.

Lemma displayed_words_concat (bs : list block) :
  displayed_words bs = flat_map split (List.concat bs).
Proof.
  unfold displayed_words. induction bs as [|b bs IH]; [reflexivity|].
  cbn [flat_map List.concat]. rewrite flat_map_app. f_equal; [|exact IH].
  apply split_join.
Qed.

(** X5.  The blocks of the smart and dummy variants
    ([group_chunks(split_into_fixed_chunks(text, 4), 2)]) display every word
    of the text, in order, whatever its length. *)
Theorem smart_blocks_display_every_word (text : string) :
  displayed_words (group_chunks (split_into_fixed_chunks text 4) 2)
  = split text.
Proof.
  rewrite displayed_words_concat.
  pose proof (split_words text) as Hw.
  unfold group_chunks. rewrite <- flat_map_concat_map.
  rewrite windows_cover by lia.
  unfold split_into_fixed_chunks.
  rewrite flat_map_split_chunks by exact Hw. apply windows_cover. lia.
Qed.

(* ------------------------------------------------------------------ *)
(** ** The duration estimate *)

(** The estimate at a non-zero rate, as a rational. *)
Lemma estimate_duration_value (text : string) (wpm : Q) :
  ~ (wpm == 0)%Q ->
  exists d,
    estimate_duration text wpm = Ok d
    /\ (d == Qmin (Qmax (inject_Z (Z.of_nat (List.length (split text)))
                        / (wpm / 60)) 1.5) 6)%Q.
Proof.
  intros Hw. unfold estimate_duration.
  rewrite (truediv_ok wpm (of_int 60)) by discriminate. cbn [bind].
  rewrite truediv_ok by (apply wps_nonzero; exact Hw). cbn [bind].
  eexists. split; [reflexivity|].
  rewrite py_min_spec, py_max_spec. reflexivity.
Qed.

(** [n / (wpm / 60)] is [60 n / wpm]. *)
Lemma raw_estimate (n : Z) (wpm : Q) :
  ~ (wpm == 0)%Q -> (inject_Z n / (wpm / 60) == inject_Z n * 60 / wpm)%Q.
Proof. intros Hw. field. exact Hw. Qed.

(** X6 (exact arithmetic).  [estimate_duration] raises
    [ZeroDivisionError] at a zero rate, whatever the text; at a negative
    rate it raises nothing and returns the floor 1.5, whatever the text. *)
Theorem estimate_duration_rate_edge (text : string) (wpm : Q) :
  ((wpm == 0)%Q -> estimate_duration text wpm = Raise ZeroDivisionError)
  /\ ((wpm < 0)%Q ->
      exists d, estimate_duration text wpm = Ok d /\ (d == 1.5)%Q).
Proof.
  split; [apply estimate_zero_rate|].
  intros Hw.
  destruct (estimate_duration_value text wpm) as (d & -> & Hd); [lra|].
  exists d. split; [reflexivity|]. rewrite Hd. clear d Hd.
  set (n := inject_Z (Z.of_nat (List.length (split text)))).
  assert (Hn : (0 <= n)%Q).
  { unfold n. change 0%Q with (inject_Z 0). rewrite <- Zle_Qle. lia. }
  assert (Hr : (n / (wpm / 60) <= 0)%Q).
  { unfold n. rewrite raw_estimate by lra. fold n.
    unfold Qdiv. assert (Hi : (/ wpm < 0)%Q).
    { destruct wpm as [[|p|p] q]; try discriminate; reflexivity. }
    assert (0 <= n * 60)%Q by lra. nra. }
  rewrite Q.max_r by lra. apply Q.min_l. lra.
Qed.

Lemma estimate_duration_rate_edge_witness :
  (0 == 0)%Q
  /\ estimate_duration "Hello world" 0%Q = Raise ZeroDivisionError
  /\ (-165 < 0)%Q
  /\ exists d, estimate_duration "Hello world" (-165)%Q = Ok d /\ (d == 1.5)%Q.
Proof.
  split; [reflexivity|].
  split; [apply (estimate_duration_rate_edge "Hello world" 0%Q); reflexivity|].
  split; [reflexivity|].
  apply (estimate_duration_rate_edge "Hello world" (-165)%Q). reflexivity.
Defined.

Lemma raw_estimate_le (n1 n2 : Z) (wpm : Q) :
  (0 < wpm)%Q -> (n1 <= n2)%Z ->
  (inject_Z n1 / (wpm / 60) <= inject_Z n2 / (wpm / 60))%Q.
Proof.
  intros Hw Hn. unfold Qdiv at 1 3. apply Qmult_le_compat_r.
  - now rewrite <- Zle_Qle.
  - apply Qlt_le_weak, Qinv_lt_0_compat. unfold Qdiv.
    apply Qmult_lt_0_compat; [exact Hw | reflexivity].
Qed.

(** X7 (exact arithmetic).  At a positive rate the estimate grows with the
    number of words: a text with no more words than another never gets the
    longer estimate. *)
Theorem estimate_duration_monotone (text1 text2 : string) (wpm d1 d2 : Q) :
  (0 < wpm)%Q ->
  List.length (split text1) <= List.length (split text2) ->
  estimate_duration text1 wpm = Ok d1 ->
  estimate_duration text2 wpm = Ok d2 ->
  (d1 <= d2)%Q.
Proof.
  intros Hw Hn H1 H2.
  destruct (estimate_duration_value text1 wpm) as (e1 & E1 & V1); [lra|].
  destruct (estimate_duration_value text2 wpm) as (e2 & E2 & V2); [lra|].
  rewrite E1 in H1. rewrite E2 in H2.
  injection H1 as <-. injection H2 as <-. rewrite V1, V2.
  apply Q.min_le_compat_r, Q.max_le_compat_r, raw_estimate_le;
    [exact Hw | lia].
Qed.

Lemma estimate_duration_monotone_witness :
  (0 < 165)%Q
  /\ List.length (split "Hello world")
     <= List.length (split "a b c d e f g h")
  /\ estimate_duration "Hello world" 165%Q = Ok 1.5%Q
  /\ estimate_duration "a b c d e f g h" 165%Q = Ok (480 # 165)%Q
  /\ (1.5 <= 480 # 165)%Q.
Proof.
  split; [reflexivity|]. split; [vm_compute; lia|].
  split; [vm_compute; reflexivity|]. split; [vm_compute; reflexivity|].
  apply (estimate_duration_monotone "Hello world" "a b c d e f g h" 165%Q
           1.5%Q (480 # 165)%Q);
    [reflexivity | vm_compute; lia | vm_compute; reflexivity
     | vm_compute; reflexivity].
Defined.

(** X8 (exact arithmetic).  At a positive rate [wpm], the estimate of a
    text of [n] words is the floor 1.5 exactly when [40 n <= wpm], and the
    ceiling 6.0 exactly when [wpm <= 10 n]. *)
Theorem estimate_duration_thresholds (text : string) (wpm : Q) :
  (0 < wpm)%Q ->
  exists d,
    estimate_duration text wpm = Ok d
    /\ ((40 * inject_Z (Z.of_nat (List.length (split text))) <= wpm)%Q <->
        (d == 1.5)%Q)
    /\ ((wpm <= 10 * inject_Z (Z.of_nat (List.length (split text))))%Q <->
        (d == 6)%Q).
Proof.
  intros Hw.
  destruct (estimate_duration_value text wpm) as (d & -> & Hd); [lra|].
  exists d. split; [reflexivity|]. rewrite Hd. clear d Hd.
  set (n := inject_Z (Z.of_nat (List.length (split text)))).
  set (r := (n / (wpm / 60))%Q).
  assert (Hr : (r * wpm == n * 60)%Q).
  { unfold r, n. rewrite raw_estimate by lra. field. lra. }
  split; split; intros Hc.
  - assert (r <= 1.5)%Q by nra. rewrite Q.max_r by assumption.
    apply Q.min_l. lra.
  - destruct (Qlt_le_dec 1.5 r) as [Hlt|Hle]; [|nra].
    exfalso. rewrite Q.max_l in Hc by lra.
    destruct (Q.min_spec r 6) as [[_ E]|[_ E]]; rewrite E in Hc; lra.
  - assert (6 <= r)%Q by nra. rewrite Q.max_l by lra. apply Q.min_r.
    assumption.
  - destruct (Qlt_le_dec r 6) as [Hlt|Hle]; [|nra].
    exfalso.
    destruct (Q.max_spec r 1.5) as [[_ E]|[_ E]]; rewrite E in Hc;
      [rewrite Q.min_l in Hc by lra; lra|].
    rewrite Q.min_l in Hc by lra. lra.
Qed.

Lemma estimate_duration_thresholds_witness :
  (0 < 165)%Q
  /\ exists d,
       estimate_duration "Hello world" 165%Q = Ok d
       /\ ((40 * inject_Z (Z.of_nat (List.length (split "Hello world")))
            <= 165)%Q <-> (d == 1.5)%Q)
       /\ ((165 <= 10 * inject_Z
                           (Z.of_nat (List.length (split "Hello world"))))%Q
           <-> (d == 6)%Q).
Proof.
  split; [reflexivity|].
  apply (estimate_duration_thresholds "Hello world" 165%Q). reflexivity.
Defined.

(* ------------------------------------------------------------------ *)
(** ** The synchronizer, in both regimes *)

Lemma scaled_bounds (wpm ratio : Q) (b : block) : (1 <= scaled wpm ratio b)%Q.
Proof.
  unfold scaled. rewrite py_max_spec. change (of_lit 1 : Q) with 1%Q.
  apply Q.le_max_r.
Qed.

(** With a zero rate the first block already raises. *)
Lemma total_raises_at_zero_rate (sentences : list string) (wpm : Q) :
  (wpm == 0)%Q -> sentences <> [] ->
  total_estimated_duration sentences wpm = Raise ZeroDivisionError.
Proof.
  intros Hw Hs. destruct sentences as [|s ss]; [congruence|].
  unfold total_estimated_duration. cbn [for_loop].
  pose proof (split_long_sentence_nonempty s) as Hb.
  destruct (split_long_sentence s) as [|b bs]; [congruence|].
  cbn [for_loop].
  rewrite (truediv_ok wpm (of_int 60)) by discriminate. cbn [bind].
  rewrite truediv_zero; [reflexivity|]. rewrite Hw. reflexivity.
Qed.

Lemma total_positive (sentences : list string) (wpm T : Q) :
  ~ (wpm == 0)%Q -> sentences <> [] ->
  total_estimated_duration sentences wpm = Ok T -> (0 < T)%Q.
Proof.
  intros Hw Hs HT. rewrite (total_value wpm Hw _ _ HT).
  pose proof (blocks_of_nonempty _ Hs) as Hb.
  destruct (blocks_of sentences) as [|b bs]; [congruence|].
  simpl. pose proof (clamped_bounds wpm b).
  assert (0 <= Qsum (map (clamped wpm) bs))%Q; [|lra].
  clear. induction bs as [|b' bs IH]; simpl; [lra|].
  pose proof (clamped_bounds wpm b'). lra.
Qed.

(** What [synchronize_with_audio] returns at a non-zero rate with at least
    one sentence: the entries [emitted] lists for one of the two duration
    rules. *)
Lemma synchronize_emitted (sentences : list string) (A wpm : Q) :
  ~ (wpm == 0)%Q -> sentences <> [] ->
  exists dur : block -> Q,
    (forall b, 1 <= dur b)%Q
    /\ synchronize_with_audio sentences A wpm
       = Ok (emitted A dur 1 (of_lit 0) (blocks_of sentences)).
Proof.
  intros Hw Hs. unfold synchronize_with_audio.
  destruct (total_estimated_duration sentences wpm) as [T|e] eqn:HT.
  2:{ rewrite total_fold in HT by exact Hw. discriminate. }
  cbn [bind]. pose proof (total_positive _ _ _ Hw Hs HT) as HT0.
  destruct (lt A T) eqn:E.
  - rewrite truediv_ok by lra. cbn [bind].
    exists (scaled wpm (A / T)). split; [apply scaled_bounds|].
    rewrite emit_compressed_run by exact Hw. cbn [bind].
    now rewrite run_entries.
  - exists (clamped wpm). split.
    + intros b. pose proof (clamped_bounds wpm b). lra.
    + rewrite emit_normal_run by exact Hw. cbn [bind].
      now rewrite run_entries.
Qed.

(** Whatever [synchronize_with_audio] returns is what [emitted] lists for a
    duration rule that gives every block at least one second. *)
Lemma synchronize_returns
  (sentences : list string) (A wpm : Q) (es : list (timed Q)) :
  synchronize_with_audio sentences A wpm = Ok es ->
  exists dur : block -> Q,
    (forall b, 1 <= dur b)%Q
    /\ es = emitted A dur 1 (of_lit 0) (blocks_of sentences).
Proof.
  intros H. destruct sentences as [|s ss].
  - unfold synchronize_with_audio in H.
    cbn [total_estimated_duration for_loop bind] in H.
    destruct (lt A (of_int 0)).
    + rewrite truediv_zero in H by reflexivity. discriminate.
    + cbn in H. injection H as <-. exists (fun _ => 1%Q).
      split; [intros _; lra | reflexivity].
  - destruct (Qeq_dec wpm 0) as [Hw|Hw].
    + unfold synchronize_with_audio in H.
      rewrite total_raises_at_zero_rate in H by (auto; discriminate).
      discriminate.
    + destruct (synchronize_emitted (s :: ss) A wpm Hw) as (dur & Hd & E);
        [discriminate|].
      rewrite E in H. injection H as <-. eauto.
Qed.

(** In exact arithmetic the budget cut keeps every end at the target or
    below it.  In binary64 the last addition can round to the double just
    above the target ([cut_rounds_above_target_b64]). *)
Lemma ends_within_target_exact
  (sentences : list string) (A wpm : Q) (es : list (timed Q)) :
  synchronize_with_audio sentences A wpm = Ok es ->
  Forall (fun e => t_end e <= A)%Q es.
Proof.
  intros H. apply synchronize_returns in H as (dur & _ & ->).
  eapply Forall_impl; [|apply emitted_within]. intros e [_ He]. exact He.
Qed.

(** X9 (exact arithmetic).  [synchronize_with_audio] raises exactly on a
    zero rate with at least one sentence, and on an empty list of sentences
    with a negative target; what it raises is [ZeroDivisionError], and on
    every other input it returns a list of entries. *)
Theorem synchronize_with_audio_raises (sentences : list string) (A wpm : Q) :
  (raises_condition sentences A wpm ->
   synchronize_with_audio sentences A wpm = Raise ZeroDivisionError)
  /\ (~ raises_condition sentences A wpm ->
      exists es, synchronize_with_audio sentences A wpm = Ok es).
Proof.
  unfold raises_condition. split.
  - intros [[Hs Hw]|[-> HA]].
    + unfold synchronize_with_audio.
      now rewrite total_raises_at_zero_rate.
    + unfold synchronize_with_audio. cbn [total_estimated_duration for_loop bind].
      replace (lt A (of_int 0)) with true by (symmetry; now apply lt_spec).
      rewrite truediv_zero; reflexivity.
  - intros H. destruct sentences as [|s ss].
    + unfold synchronize_with_audio. cbn [total_estimated_duration for_loop bind].
      replace (lt A (of_int 0)) with false.
      * cbn. eauto.
      * symmetry. apply lt_false. change (of_int 0 : Q) with 0%Q.
        destruct (Qlt_le_dec A 0); [|assumption]. exfalso. apply H. now right.
    + assert (Hw : ~ (wpm == 0)%Q).
      { intros Hw. apply H. left. split; [discriminate | exact Hw]. }
      destruct (synchronize_emitted (s :: ss) A wpm Hw) as (dur & _ & ->);
        [discriminate|]. eauto.
Qed.

Lemma synchronize_with_audio_raises_witness :
  raises_condition ["Hello world"] 30%Q 0%Q
  /\ synchronize_with_audio ["Hello world"] 30%Q 0%Q
     = Raise ZeroDivisionError
  /\ ~ raises_condition ["Hello world"] 30%Q 165%Q
  /\ exists es, synchronize_with_audio ["Hello world"] 30%Q 165%Q = Ok es.
Proof.
  assert (Hr : raises_condition ["Hello world"] 30%Q 0%Q)
    by (left; split; [discriminate | reflexivity]).
  assert (Hn : ~ raises_condition ["Hello world"] 30%Q 165%Q)
    by (intros [[_ H]|[H _]]; discriminate H).
  split; [exact Hr|].
  split; [apply (synchronize_with_audio_raises ["Hello world"] 30%Q 0%Q), Hr|].
  split; [exact Hn|].
  apply (synchronize_with_audio_raises ["Hello world"] 30%Q 165%Q), Hn.
Defined.

Lemma entries_from_members {F : Type} `{PyNum F} (A : F) (dur : block -> F)
  idx c bs :
  Forall (fun e => In (t_block e) bs) (entries_from A dur idx c bs).
Proof.
  revert idx c. induction bs as [|b bs IH]; intros idx c; cbn [entries_from];
    [constructor|].
  destruct (le A c); [constructor|]. constructor; [now left|].
  eapply Forall_impl; [|apply IH]. intros e He. now right.
Qed.

(** X10.  In any arithmetic, whatever [synchronize_with_audio] returns, in
    either regime: the entries carry a prefix of the blocks, in order, and
    are numbered from 1; they are linked from time 0, each starting where
    the one before it ends; every entry passed the test
    [current_time >= audio_duration] and ends at
    [current_time + min(d, audio_duration - current_time)], where [d] is the
    estimate [total_words / wps] of its block, either clamped into
    [1.5, 6.0] or scaled by a ratio and floored at 1.0; and blocks are left
    out only once the running time has reached the target. *)
Theorem synchronize_with_audio_entries {F : Type} `{PyNum F}
  (sentences : list string) (A wpm : F) (es : list (timed F)) :
  synchronize_with_audio sentences A wpm = Ok es ->
  map t_block es = firstn (List.length es) (blocks_of sentences)
  /\ map t_index es = map Z.of_nat (seq 1 (List.length es))
  /\ linked (of_lit 0) es
  /\ Forall (fun e =>
               le A (t_start e) = false
               /\ exists raw d,
                    block_estimate wpm (t_block e) = Ok raw
                    /\ (d = clamp_estimate raw
                        \/ exists ratio, d = scale_estimate ratio raw)
                    /\ t_end e
                       = add (t_start e) (py_min d (sub A (t_start e)))) es
  /\ (List.length es < List.length (blocks_of sentences) ->
      le A (last (map t_end es) (of_lit 0)) = true).
Proof.
  intros Hs.
  destruct (total_estimated_duration sentences wpm) as [T|x] eqn:HT.
  2:{ unfold synchronize_with_audio in Hs. rewrite HT in Hs. discriminate. }
  destruct (total_estimated_duration_folds sentences wpm T HT) as [Hraw _].
  rewrite Forall_forall in Hraw.
  destruct (lt A T) eqn:Hlt.
  - destruct (truediv A T) as [ratio|x] eqn:Hr.
    2:{ unfold synchronize_with_audio in Hs. rewrite HT in Hs.
        cbn [bind] in Hs. rewrite Hlt, Hr in Hs. discriminate. }
    rewrite (synchronize_compressed_any sentences A wpm T ratio HT Hlt Hr)
      in Hs.
    injection Hs as <-.
    split; [apply entries_from_blocks|].
    split; [apply indices_from_one_any, entries_from_indices|].
    split; [apply entries_from_linked|].
    split; [|apply entries_from_exhausted].
    pose proof (entries_from_assigned A
                  (fun b => scale_estimate ratio
                              (returned (of_int 0) (block_estimate wpm b)))
                  1 (of_lit 0) (blocks_of sentences)) as Ha.
    pose proof (entries_from_members A
                  (fun b => scale_estimate ratio
                              (returned (of_int 0) (block_estimate wpm b)))
                  1 (of_lit 0) (blocks_of sentences)) as Hm.
    rewrite Forall_forall in *. intros e He.
    destruct (Ha e He) as [Hle Hend]. split; [exact Hle|].
    eexists _, _. split; [apply Hraw, Hm, He|].
    split; [right; eexists; reflexivity | exact Hend].
  - rewrite (synchronize_normal_any sentences A wpm T HT Hlt) in Hs.
    injection Hs as <-.
    split; [apply entries_from_blocks|].
    split; [apply indices_from_one_any, entries_from_indices|].
    split; [apply entries_from_linked|].
    split; [|apply entries_from_exhausted].
    pose proof (entries_from_assigned A
                  (fun b => clamp_estimate
                              (returned (of_int 0) (block_estimate wpm b)))
                  1 (of_lit 0) (blocks_of sentences)) as Ha.
    pose proof (entries_from_members A
                  (fun b => clamp_estimate
                              (returned (of_int 0) (block_estimate wpm b)))
                  1 (of_lit 0) (blocks_of sentences)) as Hm.
    rewrite Forall_forall in *. intros e He.
    destruct (Ha e He) as [Hle Hend]. split; [exact Hle|].
    eexists _, _. split; [apply Hraw, Hm, He|].
    split; [left; reflexivity | exact Hend].
Qed.

Lemma synchronize_with_audio_entries_witness :
  exists es : list (timed float),
    synchronize_with_audio ["a b c d e f g"; "a b c d e f g h"]
      (of_lit 3.9 : float) (of_int 170) = Ok es
    /\ map t_block es
       = firstn (List.length es)
           (blocks_of ["a b c d e f g"; "a b c d e f g h"])
    /\ map t_index es = map Z.of_nat (seq 1 (List.length es))
    /\ linked (of_lit 0) es
    /\ Forall (fun e =>
                 le (of_lit 3.9 : float) (t_start e) = false
                 /\ exists raw d,
                      block_estimate (of_int 170) (t_block e) = Ok raw
                      /\ (d = clamp_estimate raw
                          \/ exists ratio, d = scale_estimate ratio raw)
                      /\ t_end e
                         = add (t_start e)
                             (py_min d (sub (of_lit 3.9) (t_start e)))) es
    /\ (List.length es
        < List.length (blocks_of ["a b c d e f g"; "a b c d e f g h"]) ->
        le (of_lit 3.9 : float) (last (map t_end es) (of_lit 0)) = true).
Proof.
  eexists. split; [vm_compute; reflexivity|].
  apply (synchronize_with_audio_entries
           ["a b c d e f g"; "a b c d e f g h"] (of_lit 3.9 : float)
           (of_int 170)).
  vm_compute. reflexivity.
Defined.

(** X11 (exact arithmetic).  For a zero or negative target on which the
    function does not raise, [synchronize_with_audio] returns no entry at
    all: every block is left out. *)
Theorem synchronize_nonpositive_target (sentences : list string) (A wpm : Q) :
  (A <= 0)%Q -> ~ raises_condition sentences A wpm ->
  synchronize_with_audio sentences A wpm = Ok [].
Proof.
  intros HA Hr. destruct sentences as [|s ss].
  - unfold synchronize_with_audio.
    cbn [total_estimated_duration for_loop bind].
    replace (lt A (of_int 0)) with false; [reflexivity|].
    symmetry. apply lt_false. change (of_int 0 : Q) with 0%Q.
    destruct (Qlt_le_dec A 0); [|assumption].
    exfalso. apply Hr. now right.
  - assert (Hw : ~ (wpm == 0)%Q).
    { intros Hw. apply Hr. left. split; [discriminate | exact Hw]. }
    destruct (synchronize_emitted (s :: ss) A wpm Hw) as (dur & _ & ->);
      [discriminate|].
    f_equal. destruct (blocks_of (s :: ss)) as [|b bs]; [reflexivity|].
    cbn [emitted].
    replace (le A (of_lit 0)) with true; [reflexivity|].
    symmetry. apply le_spec. exact HA.
Qed.

Lemma synchronize_nonpositive_target_witness :
  (0 <= 0)%Q
  /\ ~ raises_condition ["Hello world"] 0%Q 165%Q
  /\ synchronize_with_audio ["Hello world"] 0%Q 165%Q = Ok [].
Proof.
  assert (Hr : ~ raises_condition ["Hello world"] 0%Q 165%Q).
  { intros [[_ H]|[H _]]; discriminate H. }
  split; [discriminate|]. split; [exact Hr|].
  apply (synchronize_nonpositive_target ["Hello world"] 0%Q 165%Q);
    [discriminate | exact Hr].
Defined.

Lemma sum_clamped_bounds (wpm : Q) (bs : list block) :
  (1.5 * inject_Z (Z.of_nat (List.length bs))
   <= Qsum (map (clamped wpm) bs)
   <= 6 * inject_Z (Z.of_nat (List.length bs)))%Q.
Proof.
  induction bs as [|b bs IH];
    [split; vm_compute; discriminate|].
  cbn [List.length map Qsum fold_right]. rewrite Nat2Z.inj_succ.
  unfold Z.succ. rewrite inject_Z_plus. change (inject_Z 1) with 1%Q.
  pose proof (clamped_bounds wpm b). unfold Qsum in IH. lra.
Qed.

(** X12 (exact arithmetic).  When the target allows 6 seconds for every
    block, [synchronize_with_audio] (at a non-zero rate) leaves no block
    out and cuts none: there is one entry per block, in order, and every
    entry ends at its start plus what [estimate_duration] returns on the
    text of its block, a value between 1.5 and 6. *)
Theorem long_audio_keeps_every_block (sentences : list string) (A wpm : Q) :
  ~ (wpm == 0)%Q ->
  (6 * inject_Z (Z.of_nat (List.length (blocks_of sentences))) <= A)%Q ->
  exists es : list (timed Q),
    synchronize_with_audio sentences A wpm = Ok es
    /\ map t_block es = blocks_of sentences
    /\ Forall (fun e => exists d : Q,
                 estimate_duration (join " " (t_block e)) wpm = Ok d
                 /\ (1.5 <= d <= 6)%Q
                 /\ (t_end e == t_start e + d)%Q) es.
Proof.
  intros Hw HA.
  pose proof (sum_clamped_bounds wpm (blocks_of sentences)) as [_ Hsum].
  assert (Hfit : (Qsum (map (clamped wpm) (blocks_of sentences)) <= A)%Q)
    by (eapply Qle_trans; [exact Hsum | exact HA]).
  rewrite (synchronize_normal wpm Hw sentences A) by exact Hfit.
  eexists. split; [reflexivity|].
  destruct (emitted_fits A (clamped wpm) 1 (of_lit 0) (blocks_of sentences))
    as (Hlen & Hdur & _).
  - apply clamped_positive.
  - change (of_lit 0 : Q) with 0%Q. rewrite Qplus_0_l. exact Hfit.
  - split.
    + rewrite emitted_blocks, Hlen. apply firstn_all.
    + eapply Forall_impl; [|exact Hdur]. intros e He. cbv beta in He.
      exists (clamped wpm (t_block e)).
      split; [apply (estimate_duration_block wpm Hw)|].
      split; [apply clamped_bounds | exact He].
Qed.

Lemma long_audio_keeps_every_block_witness :
  ~ (165 == 0)%Q
  /\ (6 * inject_Z (Z.of_nat (List.length (blocks_of test_sentences)))
      <= 30)%Q
  /\ exists es : list (timed Q),
       synchronize_with_audio test_sentences 30%Q 165%Q = Ok es
       /\ map t_block es = blocks_of test_sentences
       /\ Forall (fun e => exists d : Q,
                    estimate_duration (join " " (t_block e)) 165%Q = Ok d
                    /\ (1.5 <= d <= 6)%Q
                    /\ (t_end e == t_start e + d)%Q) es.
Proof.
  split; [discriminate|]. split; [vm_compute; discriminate|].
  apply (long_audio_keeps_every_block test_sentences 30%Q 165%Q);
    [discriminate | vm_compute; discriminate].
Defined.

(** In binary64 as well, a long audio leaves no block out and every entry
    ends at its start plus its estimate; the sum is rounded, so the span
    between the two stamps can fall just short of the estimate. *)
Example long_audio_b64 :
  synchronize_with_audio ["a b c d e f g"; "a b"]
    (of_lit 100 : float) (of_int 165)
  = Ok [Timed 1 0%float 0x1.45d1745d1745dp+1%float ["a b c d"; "e f g"];
        Timed 2 0x1.45d1745d1745dp+1%float 0x1.02e8ba2e8ba2ep+2%float
          ["a b"; ""]]
  /\ estimate_duration "a b c d e f g" (of_int 165 : float)
     = Ok 0x1.45d1745d1745dp+1%float
  /\ estimate_duration "a b " (of_int 165 : float) = Ok 1.5%float
  /\ add 0x1.45d1745d1745dp+1%float 1.5%float = 0x1.02e8ba2e8ba2ep+2%float
  /\ sub 0x1.02e8ba2e8ba2ep+2%float 0x1.45d1745d1745dp+1%float
     = 0x1.7fffffffffffep+0%float.
Proof. repeat split; vm_compute; reflexivity. Qed.

(* ------------------------------------------------------------------ *)
(** ** The serializer *)

Section SerializerFacts.
Context {F : Type} `{PyNum F}.

(** A loop that only appends to its accumulator. *)
Lemma for_loop_appends {X} (g : X -> res string) (l : list X) (acc : string) :
  for_loop (fun x s => t <- g x ;; Ok (Next (s ++ t)%string)) l acc
  = (r <- for_loop (fun x s => t <- g x ;; Ok (Next (s ++ t)%string)) l "" ;;
     Ok (acc ++ r)%string).
Proof.
  revert acc. induction l as [|x l IH]; intros acc; cbn [for_loop bind].
  - now rewrite append_nil_r.
  - destruct (g x) as [t|e]; cbn [bind]; [|reflexivity].
    rewrite (IH (acc ++ t)%string), (IH ("" ++ t)%string).
    destruct (for_loop _ l "") as [r|e]; cbn [bind]; [|reflexivity].
    now rewrite append_assoc.
Qed.

Lemma generate_srt_content_step (e : timed F) (acc : string) :
  (let srt_content := (acc ++ str_int (t_index e) ++ nl)%string in
   t0 <- format_srt_time (t_start e) ;;
   t1 <- format_srt_time (t_end e) ;;
   let srt_content := (srt_content ++ t0 ++ " --> " ++ t1 ++ nl)%string in
   match t_block e with
   | [line1; line2] =>
       let srt_content := (srt_content ++ line1 ++ nl)%string in
       let srt_content :=
         if truthy (strip line2) then (srt_content ++ line2 ++ nl)%string
         else srt_content in
       Ok (Next (srt_content ++ nl)%string)
   | _ => Raise ValueError
   end)
  = (t <- entry_text e ;; Ok (Next (acc ++ t)%string)).
Proof.
  unfold entry_text. cbv zeta.
  destruct (format_srt_time (t_start e)) as [t0|x]; cbn [bind]; [|reflexivity].
  destruct (format_srt_time (t_end e)) as [t1|x]; cbn [bind]; [|reflexivity].
  destruct (t_block e) as [|l1 [|l2 [|l3 b]]]; cbn [bind]; try reflexivity.
  destruct (truthy (strip l2)); repeat rewrite append_assoc; reflexivity.
Qed.

Lemma generate_srt_content_loop (es : list (timed F)) :
  generate_srt_content es
  = for_loop (fun e s => t <- entry_text e ;; Ok (Next (s ++ t)%string)) es "".
Proof.
  unfold generate_srt_content. apply for_loop_ext.
  intros e acc. apply generate_srt_content_step.
Qed.

Lemma generate_srt_content_cons (e : timed F) (es : list (timed F)) :
  generate_srt_content (e :: es)
  = (t <- entry_text e ;; r <- generate_srt_content es ;; Ok (t ++ r)%string).
Proof.
  rewrite !generate_srt_content_loop. cbn [for_loop].
  destruct (entry_text e) as [t|x]; cbn [bind]; [|reflexivity].
  rewrite for_loop_appends. reflexivity.
Qed.

(** X13.  [generate_srt_content] distributes over concatenation, in either
    arithmetic: the text of [es1 + es2] is the text of [es1] followed by the
    text of [es2], and it raises what the first failing part raises.  The
    text of an entry depends on nothing before or after it. *)
Theorem generate_srt_content_app (es1 es2 : list (timed F)) :
  generate_srt_content (es1 ++ es2)
  = (a <- generate_srt_content es1 ;;
     b <- generate_srt_content es2 ;;
     Ok (a ++ b)%string).
Proof.
  induction es1 as [|e es1 IH].
  - cbn [app]. change (generate_srt_content (@nil (timed F))) with (Ok "").
    cbn [bind]. destruct (generate_srt_content es2); reflexivity.
  - cbn [app]. rewrite !generate_srt_content_cons, IH.
    destruct (entry_text e) as [t|x]; cbn [bind]; [|reflexivity].
    destruct (generate_srt_content es1) as [a|x]; cbn [bind]; [|reflexivity].
    destruct (generate_srt_content es2) as [b|x]; cbn [bind]; [|reflexivity].
    now rewrite append_assoc.
Qed.

(** The loop of the smart variant appends the same text whenever the block
    has two lines and the second is not blank. *)
Lemma smart_srt_cons (e : timed F) (es : list (timed F)) :
  smart_srt (e :: es)
  = (t0 <- format_srt_time (t_start e) ;;
     t1 <- format_srt_time (t_end e) ;;
     r <- smart_srt es ;;
     Ok (str_int (t_index e) ++ nl ++ t0 ++ " --> " ++ t1 ++ nl
         ++ join nl (t_block e) ++ nl ++ nl ++ r)%string).
Proof.
  set (g := fun e : timed F =>
              t0 <- format_srt_time (t_start e) ;;
              t1 <- format_srt_time (t_end e) ;;
              Ok (str_int (t_index e) ++ nl ++ t0 ++ " --> " ++ t1
                  ++ nl ++ join nl (t_block e) ++ nl ++ nl)%string).
  assert (L : forall l,
             smart_srt l
             = for_loop (fun e s => t <- g e ;; Ok (Next (s ++ t)%string)) l "").
  { intros l. unfold smart_srt. apply for_loop_ext. intros x s. unfold g.
    destruct (format_srt_time (t_start x)); cbn [bind]; [|reflexivity].
    destruct (format_srt_time (t_end x)); cbn [bind]; [|reflexivity].
    repeat rewrite append_assoc. reflexivity. }
  rewrite !L. cbn [for_loop]. unfold g at 1.
  destruct (format_srt_time (t_start e)) as [t0|x]; cbn [bind]; [|reflexivity].
  destruct (format_srt_time (t_end e)) as [t1|x]; cbn [bind]; [|reflexivity].
  rewrite for_loop_appends.
  destruct (for_loop _ es "") as [r|x]; cbn [bind]; [|reflexivity].
  repeat rewrite append_assoc. reflexivity.
Qed.

(** X14.  On entries whose blocks have two lines, the second one not blank,
    [generate_srt_content] builds the very text the loop of the smart and
    dummy variants builds, in either arithmetic. *)
Theorem generate_srt_content_is_smart_srt (es : list (timed F)) :
  Forall (fun e => exists line1 line2,
                     t_block e = [line1; line2]
                     /\ truthy (strip line2) = true) es ->
  generate_srt_content es = smart_srt es.
Proof.
  induction 1 as [|e es (l1 & l2 & Hb & Ht) _ IH];
    [reflexivity|].
  rewrite generate_srt_content_cons, smart_srt_cons, IH.
  unfold entry_text. rewrite Hb, Ht.
  destruct (format_srt_time (t_start e)) as [t0|x]; cbn [bind]; [|reflexivity].
  destruct (format_srt_time (t_end e)) as [t1|x]; cbn [bind]; [|reflexivity].
  destruct (smart_srt es) as [r|x]; cbn [bind]; [|reflexivity].
  cbn [join String.concat]. repeat rewrite append_assoc. reflexivity.
Qed.

End SerializerFacts.

Lemma generate_srt_content_is_smart_srt_witness :
  Forall (fun e : timed Q =>
            exists line1 line2,
              t_block e = [line1; line2] /\ truthy (strip line2) = true)
         [Timed 1 0%Q 2%Q ["a b c d"; "e f g h"]]
  /\ generate_srt_content [Timed 1 0%Q 2%Q ["a b c d"; "e f g h"]]
     = smart_srt [Timed 1 0%Q 2%Q ["a b c d"; "e f g h"]].
Proof.
  assert (Hb : Forall (fun e : timed Q =>
                        exists line1 line2,
                          t_block e = [line1; line2]
                          /\ truthy (strip line2) = true)
                     [Timed 1 0%Q 2%Q ["a b c d"; "e f g h"]]).
  { constructor; [|constructor].
    exists "a b c d", "e f g h". split; reflexivity. }
  split; [exact Hb|].
  apply (generate_srt_content_is_smart_srt
           [Timed 1 0%Q 2%Q ["a b c d"; "e f g h"]] Hb).
Defined.

Lemma entry_text_two_lines (e : timed Q) :
  two_lines (t_block e) = true -> exists t, entry_text e = Ok t.
Proof.
  unfold two_lines, entry_text. rewrite !format_srt_time_spec. cbn [bind].
  destruct (t_block e) as [|l1 [|l2 [|l3 b]]]; cbn; try discriminate.
  eauto.
Qed.

Lemma entry_text_other (e : timed Q) :
  two_lines (t_block e) = false -> entry_text e = Raise ValueError.
Proof.
  unfold two_lines, entry_text. rewrite !format_srt_time_spec. cbn [bind].
  destruct (t_block e) as [|l1 [|l2 [|l3 b]]]; cbn; try discriminate;
    reflexivity.
Qed.

Lemma generate_srt_content_two_lines (es : list (timed Q)) :
  forallb (fun e => two_lines (t_block e)) es = true ->
  exists srt, generate_srt_content es = Ok srt.
Proof.
  induction es as [|e es IH]; cbn [forallb]; intros Hall.
  - exists "". reflexivity.
  - apply andb_true_iff in Hall as [He Hes].
    destruct (entry_text_two_lines e He) as [t Ht].
    destruct (IH Hes) as [r Hr].
    rewrite generate_srt_content_cons, Ht, Hr. cbn. eauto.
Qed.

(** X15 (exact arithmetic).  [generate_srt_content] returns a text when
    every block has exactly two lines, and raises [ValueError] (from the
    unpacking [line1, line2 = subtitle_block]) as soon as one block has
    another number of lines. *)
Theorem generate_srt_content_raises (es : list (timed Q)) :
  if forallb (fun e => two_lines (t_block e)) es
  then exists srt, generate_srt_content es = Ok srt
  else generate_srt_content es = Raise ValueError.
Proof.
  destruct (forallb _ es) eqn:E; [now apply generate_srt_content_two_lines|].
  induction es as [|e es IH]; [discriminate|].
  cbn [forallb] in E. rewrite generate_srt_content_cons.
  destruct (two_lines (t_block e)) eqn:He.
  - destruct (entry_text_two_lines e He) as [t ->]. cbn [bind].
    rewrite IH by exact E. reflexivity.
  - now rewrite entry_text_other.
Qed.

Lemma blocks_of_two_lines (sentences : list string) :
  Forall (fun b => two_lines b = true) (blocks_of sentences).
Proof.
  unfold blocks_of. apply Forall_flat_map, Forall_forall. intros s _.
  eapply Forall_impl; [|apply split_long_sentence_two_lines].
  intros b Hb. unfold two_lines. now rewrite Hb.
Qed.

(** X16 (exact arithmetic).  The serializer never fails on what the
    synchronizer returns: whenever [synchronize_with_audio] returns entries,
    [generate_srt_content] returns a text for them. *)
Theorem synchronized_entries_serialize
  (sentences : list string) (A wpm : Q) (es : list (timed Q)) :
  synchronize_with_audio sentences A wpm = Ok es ->
  exists srt, generate_srt_content es = Ok srt.
Proof.
  intros Hs. apply generate_srt_content_two_lines.
  apply synchronize_returns in Hs as (dur & _ & ->).
  pose proof (Forall_firstn _
                (List.length (emitted A dur 1 (of_lit 0) (blocks_of sentences)))
                _ (blocks_of_two_lines sentences)) as Hall.
  rewrite <- emitted_blocks in Hall. apply forallb_forall. intros e He.
  rewrite Forall_forall in Hall. apply Hall. now apply in_map.
Qed.

Lemma synchronized_entries_serialize_witness :
  exists es : list (timed Q),
    synchronize_with_audio test_sentences 30%Q 165%Q = Ok es
    /\ exists srt, generate_srt_content es = Ok srt.
Proof.
  eexists. split; [vm_compute; reflexivity|].
  apply (synchronized_entries_serialize test_sentences 30%Q 165%Q).
  vm_compute. reflexivity.
Defined.

(* ------------------------------------------------------------------ *)
(** ** Width of a time stamp *)

Lemma spec_hours_range (s : Q) :
  (0 <= s < 360000)%Q -> (0 <= spec_hours s < 100)%Z.
Proof.
  intros [H0 H1]. unfold spec_hours.
  assert (D : (s / 3600 == s * (1 # 3600))%Q) by (field; discriminate).
  split.
  - change 0%Z with (Qfloor 0). apply Qfloor_resp_le. rewrite D. lra.
  - apply Z.lt_nge. intros Hc.
    assert (Hle : (inject_Z 100 <= inject_Z (Qfloor (s / 3600)))%Q)
      by now rewrite <- Zle_Qle.
    pose proof (Qfloor_le (s / 3600)) as Hf.
    revert Hle Hf. generalize (inject_Z (Qfloor (s / 3600))). intros f Hle Hf.
    rewrite D in Hf. change (inject_Z 100) with 100%Q in Hle. lra.
Qed.

(** X17 (exact arithmetic).  For a time from 0 up to, not including,
    100 hours, [format_srt_time] returns a stamp of exactly 12 characters:
    two for the hours, two for the minutes, two for the seconds and three
    for the milliseconds, separated by [:], [:] and [,]. *)
Theorem format_srt_time_width (s : Q) :
  (0 <= s < 360000)%Q ->
  exists hh mm ss mmm,
    format_srt_time s = Ok (hh ++ ":" ++ mm ++ ":" ++ ss ++ "," ++ mmm)%string
    /\ String.length hh = 2 /\ String.length mm = 2
    /\ String.length ss = 2 /\ String.length mmm = 3
    /\ String.length (hh ++ ":" ++ mm ++ ":" ++ ss ++ "," ++ mmm) = 12.
Proof.
  intros Hs. rewrite format_srt_time_spec. unfold spec_stamp.
  destruct (fields_decompose s) as (Hm & Hsec & Hms & _).
  pose proof (spec_hours_range s Hs) as Hh.
  exists (pad0 2 (spec_hours s)), (pad0 2 (spec_minutes s)),
         (pad0 2 (spec_seconds s)), (pad0 3 (spec_millis s)).
  split; [reflexivity|].
  assert (L1 := pad0_2_width (spec_hours s) Hh).
  assert (L2 := pad0_2_width (spec_minutes s) ltac:(lia)).
  assert (L3 := pad0_2_width (spec_seconds s) ltac:(lia)).
  assert (L4 := pad0_3_width (spec_millis s) Hms).
  repeat (split; [assumption|]).
  rewrite !length_append, L1, L2, L3, L4. reflexivity.
Qed.

Lemma format_srt_time_width_witness :
  (0 <= 3661.5 < 360000)%Q
  /\ exists hh mm ss mmm,
       format_srt_time 3661.5%Q
       = Ok (hh ++ ":" ++ mm ++ ":" ++ ss ++ "," ++ mmm)%string
       /\ String.length hh = 2 /\ String.length mm = 2
       /\ String.length ss = 2 /\ String.length mmm = 3
       /\ String.length (hh ++ ":" ++ mm ++ ":" ++ ss ++ "," ++ mmm) = 12.
Proof.
  assert (Hs : (0 <= 3661.5 < 360000)%Q) by (split; [discriminate|reflexivity]).
  split; [exact Hs|]. apply (format_srt_time_width 3661.5%Q Hs).
Defined.

(* ------------------------------------------------------------------ *)
(** ** Stripping *)

Lemma split_lstrip (s : string) : split (lstrip s) = split s.
Proof.
  induction s as [|c s IH]; [reflexivity|]. unfold split in *. simpl.
  destruct (isspace c) eqn:Hc; [exact IH|]. simpl. now rewrite Hc.
Qed.

Lemma split_from_rstrip (w s : string) :
  split_from w (rstrip s) = split_from w s.
Proof.
  revert w. induction s as [|c s IH]; intros w; [reflexivity|].
  cbn [rstrip]. destruct (rstrip s) as [|c' r] eqn:E.
  - destruct (isspace c) eqn:Hc.
    + cbn [split_from]. rewrite Hc, <- IH. cbn [split_from truthy].
      destruct (truthy w); reflexivity.
    + cbn [split_from]. rewrite Hc, <- IH. reflexivity.
  - clear E. revert IH. generalize (String c' r). intros r0 IH.
    cbn [split_from]. destruct (isspace c); rewrite ?IH; reflexivity.
Qed.

Lemma split_strip (s : string) : split (strip s) = split s.
Proof.
  unfold strip, split. rewrite split_from_rstrip. apply split_lstrip.
Qed.

Lemma split_blank (s : string) : truthy (strip s) = false -> split s = [].
Proof.
  intros H. rewrite <- split_strip. destruct (strip s); [reflexivity|].
  discriminate.
Qed.

Lemma rstrip_idempotent (s : string) : rstrip (rstrip s) = rstrip s.
Proof.
  induction s as [|c s IH]; [reflexivity|]. cbn [rstrip].
  destruct (rstrip s) as [|c' r] eqn:E.
  - destruct (isspace c) eqn:Hc; [reflexivity|]. cbn [rstrip]. now rewrite Hc.
  - cbn [rstrip] in *. now rewrite IH.
Qed.

Lemma lstrip_head (s : string) :
  match lstrip s with
  | EmptyString => True
  | String c _ => isspace c = false
  end.
Proof.
  induction s as [|c s IH]; simpl; [exact I|].
  destruct (isspace c) eqn:Hc; [exact IH | exact Hc].
Qed.

Lemma strip_head (s : string) :
  match strip s with
  | EmptyString => True
  | String c _ => isspace c = false
  end.
Proof.
  unfold strip. pose proof (lstrip_head s) as H.
  destruct (lstrip s) as [|c t]; [exact I|]. cbn [rstrip].
  destruct (rstrip t); [now rewrite H | exact H].
Qed.

Lemma strip_idempotent (s : string) : strip (strip s) = strip s.
Proof.
  pose proof (strip_head s) as H. unfold strip at 1.
  destruct (strip s) as [|c t] eqn:E; [reflexivity|].
  cbn [lstrip]. rewrite H, <- E. unfold strip. apply rstrip_idempotent.
Qed.

Lemma rstrip_blank (s : string) : rstrip s = "" -> whitespace_only s = true.
Proof.
  induction s as [|c s IH]; [reflexivity|]. cbn [rstrip whitespace_only].
  destruct (rstrip s) as [|c' r]; [|discriminate].
  destruct (isspace c); [|discriminate]. intros _. now apply IH.
Qed.

Lemma strip_blank (s : string) : strip s = "" -> whitespace_only s = true.
Proof.
  unfold strip. intros H. apply rstrip_blank in H.
  induction s as [|c s IH]; [reflexivity|]. cbn [lstrip whitespace_only] in *.
  destruct (isspace c) eqn:Hc; [now apply IH|].
  cbn [whitespace_only] in H. now rewrite Hc in H.
Qed.

(* ------------------------------------------------------------------ *)
(** ** The sentence segmenter *)

(** X18.  Every sentence [split_text_into_sentences] returns, with the
    tokenizer or with the fallback, carries no leading or trailing
    whitespace: stripping it again changes nothing. *)
Theorem sentences_are_stripped
  (nltk : option (string -> list string)) (text : string) :
  Forall (fun s => strip s = s) (split_text_into_sentences nltk text).
Proof.
  unfold split_text_into_sentences.
  destruct (negb (truthy text) || negb (truthy (strip text)));
    [constructor|].
  destruct nltk as [tok|]; apply Forall_forall; intros s Hs;
    apply in_map_iff in Hs as (p & <- & _); apply strip_idempotent.
Qed.

Lemma re_split_from_words (cur : string) (st : scan) (s : string) :
  (st = InSpaces -> cur = "") ->
  flat_map split (re_split_from cur st s) = split (cur ++ s).
Proof.
  revert cur st. induction s as [|c s IH]; intros cur st Hst.
  - cbn [re_split_from flat_map]. now rewrite append_nil_r, app_nil_r.
  - assert (Hother :
      flat_map split (re_split_from (cur ++ String c "") (after c) s)
      = split (cur ++ String c s)).
    { rewrite IH.
      - now rewrite append_assoc.
      - unfold after. destruct (is_mark c); discriminate. }
    cbn [re_split_from]. destruct st; [exact Hother| |].
    + destruct (Ascii.eqb c " ") eqn:Hc; [|exact Hother].
      apply Ascii.eqb_eq in Hc. subst c. cbn [flat_map].
      rewrite IH by reflexivity.
      change (cur ++ String " " s)%string with (cur ++ " " ++ s)%string.
      unfold split at 3. now rewrite split_from_app_space.
    + destruct (Ascii.eqb c " ") eqn:Hc; [|exact Hother].
      apply Ascii.eqb_eq in Hc. subst c. rewrite (Hst eq_refl).
      rewrite IH by reflexivity. reflexivity.
Qed.

Lemma stripped_pieces_words (l : list string) :
  flat_map split (map strip (filter (fun s => truthy (strip s)) l))
  = flat_map split l.
Proof.
  induction l as [|p l IH]; [reflexivity|]. cbn [filter flat_map].
  destruct (truthy (strip p)) eqn:E.
  - cbn [map flat_map]. now rewrite split_strip, IH.
  - now rewrite (split_blank p E), IH.
Qed.

(** The words of the sentences of the fallback are the words of the
    text. *)
Lemma fallback_words (text : string) :
  flat_map split (split_text_into_sentences None text) = split text.
Proof.
  unfold split_text_into_sentences.
  destruct (truthy text) eqn:Ht; cbn [negb orb].
  - destruct (truthy (strip text)) eqn:Hs; cbn [negb].
    + rewrite stripped_pieces_words. unfold re_split_sentences.
      rewrite re_split_from_words by discriminate. apply split_strip.
    + symmetry. now apply split_blank.
  - destruct text; [reflexivity | discriminate].
Qed.

Lemma split_from_nil (w s : string) :
  split_from w s = [] -> truthy w = false /\ whitespace_only s = true.
Proof.
  revert w. induction s as [|c s IH]; intros w; cbn [split_from whitespace_only].
  - destruct (truthy w); [discriminate | auto].
  - destruct (isspace c).
    + destruct (truthy w); [discriminate|]. intros H.
      apply IH in H as [_ H]. auto.
    + intros H. apply IH in H as [H _]. now rewrite truthy_app_char in H.
Qed.

Lemma fallback_sentences_nonempty (text : string) :
  whitespace_only text = false -> split_text_into_sentences None text <> [].
Proof.
  intros Hw E. pose proof (fallback_words text) as K.
  rewrite E in K. cbn [flat_map] in K. symmetry in K.
  apply split_from_nil in K as [_ K]. congruence.
Qed.

(** X19.  The fallback segmenter cuts the words of the text into
    consecutive, non-empty groups: the words of the sentences it returns,
    one sentence after the other, are the words of the text, in order;
    every sentence holds at least one word; and no sentence is returned
    exactly when the text is blank. *)
Theorem fallback_sentences_keep_words (text : string) :
  flat_map split (split_text_into_sentences None text) = split text
  /\ Forall (fun s => split s <> []) (split_text_into_sentences None text)
  /\ (split_text_into_sentences None text = []
      <-> whitespace_only text = true).
Proof.
  split; [apply fallback_words|]. split.
  - unfold split_text_into_sentences.
    destruct (negb (truthy text) || negb (truthy (strip text)));
      [constructor|].
    eapply Forall_impl; [|apply strip_filter_not_blank].
    intros s Hs E. apply split_from_nil in E as [_ E]. congruence.
  - split.
    + intros E. destruct (whitespace_only text) eqn:Hw; [reflexivity|].
      now apply fallback_sentences_nonempty in E.
    + intros Hw. unfold split_text_into_sentences.
      rewrite (strip_whitespace_only text Hw). cbn [truthy negb].
      now rewrite orb_true_r.
Qed.

Lemma is_mark_not_space (c : ascii) : is_mark c = true -> isspace c = false.
Proof.
  unfold is_mark. intros H.
  apply orb_true_iff in H as [H|H]; [apply orb_true_iff in H as [H|H]|];
    apply Ascii.eqb_eq in H; subst c; reflexivity.
Qed.

Lemma ends_with_mark_app_char (cur : string) (c : ascii) :
  ends_with_mark (cur ++ String c "") = is_mark c.
Proof.
  induction cur as [|x cur IH]; [reflexivity|].
  cbn [append ends_with_mark]. rewrite IH.
  destruct cur; reflexivity.
Qed.

Lemma re_split_from_marks (cur : string) (st : scan) (s : string) :
  (st = AfterMark -> ends_with_mark cur = true) ->
  exists init lastp,
    re_split_from cur st s = init ++ [lastp]
    /\ Forall (fun p => ends_with_mark p = true) init.
Proof.
  revert cur st. induction s as [|c s IH]; intros cur st Hst.
  - exists [], cur. split; [reflexivity | constructor].
  - assert (Hother :
      exists init lastp,
        re_split_from (cur ++ String c "") (after c) s = init ++ [lastp]
        /\ Forall (fun p => ends_with_mark p = true) init).
    { apply IH. unfold after. rewrite ends_with_mark_app_char.
      destruct (is_mark c); [reflexivity | discriminate]. }
    cbn [re_split_from]. destruct st; [exact Hother| |].
    + destruct (Ascii.eqb c " "); [|exact Hother].
      destruct (IH "" InSpaces) as (init & lastp & E & Hall); [discriminate|].
      exists (cur :: init), lastp. rewrite E. split; [reflexivity|].
      constructor; [now apply Hst | exact Hall].
    + destruct (Ascii.eqb c " "); [|exact Hother].
      apply IH. discriminate.
Qed.

Lemma rstrip_ends_with_mark (p : string) :
  ends_with_mark p = true -> rstrip p = p.
Proof.
  induction p as [|c p IH]; [discriminate|]. cbn [ends_with_mark rstrip].
  destruct p as [|c' p'].
  - intros H. cbn [rstrip]. now rewrite (is_mark_not_space c H).
  - intros H. rewrite (IH H). reflexivity.
Qed.

Lemma lstrip_ends_with_mark (p : string) :
  ends_with_mark p = true -> ends_with_mark (lstrip p) = true.
Proof.
  induction p as [|c p IH]; [discriminate|]. cbn [lstrip].
  destruct (isspace c) eqn:Hc; [|trivial].
  cbn [ends_with_mark]. destruct p as [|c' p'].
  - intros H. apply is_mark_not_space in H. congruence.
  - exact IH.
Qed.

Lemma strip_ends_with_mark (p : string) :
  ends_with_mark p = true -> ends_with_mark (strip p) = true.
Proof.
  intros H. apply lstrip_ends_with_mark in H. unfold strip.
  now rewrite rstrip_ends_with_mark.
Qed.

Lemma stripped_pieces_marks (l : list string) :
  Forall (fun p => ends_with_mark p = true) l ->
  Forall (fun p => ends_with_mark p = true)
         (map strip (filter (fun s => truthy (strip s)) l)).
Proof.
  induction 1 as [|p l Hp _ IH]; [constructor|]. cbn [filter].
  destruct (truthy (strip p)); [|exact IH].
  constructor; [now apply strip_ends_with_mark | exact IH].
Qed.

(** X20.  Every sentence the fallback segmenter returns, the last one
    apart, ends with one of the marks [.], [!], [?]. *)
Theorem fallback_sentences_end_with_mark
  (text : string) (sentences : list string) (final : string) :
  split_text_into_sentences None text = sentences ++ [final] ->
  Forall (fun s => ends_with_mark s = true) sentences.
Proof.
  unfold split_text_into_sentences.
  destruct (negb (truthy text) || negb (truthy (strip text))).
  - intros H. now apply app_cons_not_nil in H.
  - unfold re_split_sentences.
    destruct (re_split_from_marks "" Plain (strip text))
      as (init & lastp & -> & Hall); [discriminate|].
    rewrite filter_app, map_app. cbn [filter].
    apply stripped_pieces_marks in Hall.
    destruct (truthy (strip lastp)); cbn [map].
    + intros H. apply app_inj_tail in H as [<- _]. exact Hall.
    + rewrite app_nil_r. intros H. rewrite H in Hall.
      now apply Forall_app in Hall.
Qed.

Lemma fallback_sentences_end_with_mark_witness :
  split_text_into_sentences None "Hello world!  This is a test. The end"
  = ["Hello world!"; "This is a test."] ++ ["The end"]
  /\ Forall (fun s => ends_with_mark s = true)
            ["Hello world!"; "This is a test."].
Proof.
  split; [reflexivity|].
  apply (fallback_sentences_end_with_mark
           "Hello world!  This is a test. The end"
           ["Hello world!"; "This is a test."] "The end").
  reflexivity.
Defined.

Lemma has_mark_lstrip (s : string) :
  has_mark s = false -> has_mark (lstrip s) = false.
Proof.
  induction s as [|c s IH]; [reflexivity|]. cbn [lstrip].
  destruct (isspace c); [|trivial]. cbn [has_mark]. intros H.
  apply orb_false_iff in H as [_ H]. now apply IH.
Qed.

Lemma has_mark_rstrip (s : string) :
  has_mark s = false -> has_mark (rstrip s) = false.
Proof.
  induction s as [|c s IH]; [reflexivity|]. cbn [rstrip has_mark]. intros H.
  apply orb_false_iff in H as [Hc H]. specialize (IH H).
  destruct (rstrip s) as [|c' r].
  - destruct (isspace c); [reflexivity|]. cbn [has_mark]. now rewrite Hc.
  - cbn [has_mark] in *. now rewrite Hc, IH.
Qed.

Lemma re_split_from_no_mark (cur s : string) :
  has_mark s = false -> re_split_from cur Plain s = [(cur ++ s)%string].
Proof.
  revert cur. induction s as [|c s IH]; intros cur H.
  - cbn [re_split_from]. now rewrite append_nil_r.
  - cbn [has_mark] in H. apply orb_false_iff in H as [Hc H].
    cbn [re_split_from]. unfold after. rewrite Hc, IH by exact H.
    now rewrite append_assoc.
Qed.

(** X21.  A text that is not blank and holds none of the marks [.], [!],
    [?] is one sentence for the fallback segmenter: the stripped text. *)
Theorem fallback_without_mark_is_one_sentence (text : string) :
  has_mark text = false -> whitespace_only text = false ->
  split_text_into_sentences None text = [strip text].
Proof.
  intros Hm Hw. unfold split_text_into_sentences.
  assert (Hs : truthy (strip text) = true).
  { destruct (strip text) eqn:E; [|reflexivity].
    apply strip_blank in E. congruence. }
  assert (Ht : truthy text = true) by (destruct text; [discriminate|reflexivity]).
  rewrite Ht, Hs. cbn [negb orb]. unfold re_split_sentences.
  rewrite re_split_from_no_mark
    by (unfold strip; now apply has_mark_rstrip, has_mark_lstrip).
  cbn [append filter]. rewrite strip_idempotent, Hs. cbn [map].
  now rewrite strip_idempotent.
Qed.

Lemma fallback_without_mark_is_one_sentence_witness :
  has_mark "  no mark here " = false
  /\ whitespace_only "  no mark here " = false
  /\ split_text_into_sentences None "  no mark here "
     = [strip "  no mark here "].
Proof.
  split; [reflexivity|]. split; [reflexivity|].
  apply (fallback_without_mark_is_one_sentence "  no mark here ");
    reflexivity.
Defined.

(* ------------------------------------------------------------------ *)
(** ** The smart variant *)

Section EqualDivisionAny.
Context {F : Type} `{PyNum F}.
Variable n : Z.
Variables d total : F.

Lemma entry_at_blocks (k : nat) (bs : list block) :
  map t_block (map (entry_at n d total) (combine (seq k (List.length bs)) bs))
  = bs.
Proof.
  revert k. induction bs as [|b bs IH]; intros k; [reflexivity|].
  cbn [List.length seq combine map]. now rewrite IH.
Qed.

Lemma entry_at_indices (k : nat) (bs : list block) :
  map t_index (map (entry_at n d total) (combine (seq k (List.length bs)) bs))
  = map Z.of_nat (seq (S k) (List.length bs)).
Proof.
  revert k. induction bs as [|b bs IH]; intros k; [reflexivity|].
  cbn [List.length seq combine map]. rewrite IH. f_equal. cbn. lia.
Qed.

Lemma entry_at_starts (k : nat) (bs : list block) :
  Forall (fun e => t_start e = mul (of_int (t_index e - 1)) d)
         (map (entry_at n d total) (combine (seq k (List.length bs)) bs)).
Proof.
  revert k. induction bs as [|b bs IH]; intros k; [constructor|].
  cbn [List.length seq combine map]. constructor; [|apply IH].
  cbn. now replace (Z.of_nat k + 1 - 1)%Z with (Z.of_nat k) by lia.
Qed.

Lemma entry_at_linked (k : nat) (bs : list block) :
  (Z.of_nat (k + List.length bs) = n)%Z ->
  linked (mul (of_int (Z.of_nat k)) d)
    (map (entry_at n d total) (combine (seq k (List.length bs)) bs)).
Proof.
  revert k. induction bs as [|b bs IH]; intros k Hn; [exact I|].
  cbn [List.length seq combine map linked]. split; [reflexivity|].
  destruct bs as [|b' bs]; [exact I|].
  cbn [List.length] in Hn.
  replace (t_end (entry_at n d total (k, b)))
    with (mul (of_int (Z.of_nat (S k))) d); [apply IH; cbn [List.length]; lia|].
  unfold entry_at. cbn [fst snd t_end].
  replace (Z.of_nat k =? n - 1)%Z with false
    by (symmetry; apply Z.eqb_neq; lia).
  now replace (Z.of_nat k + 1)%Z with (Z.of_nat (S k)) by lia.
Qed.

Lemma entry_at_last (k : nat) (bs : list block) (d0 : F) :
  bs <> [] -> (Z.of_nat (k + List.length bs) = n)%Z ->
  last (map t_end
          (map (entry_at n d total) (combine (seq k (List.length bs)) bs)))
       d0
  = total.
Proof.
  revert k d0. induction bs as [|b bs IH]; intros k d0 Hne Hn; [congruence|].
  cbn [List.length seq combine map]. rewrite last_cons.
  destruct bs as [|b' bs].
  - cbn. replace (Z.of_nat k =? n - 1)%Z with true; [reflexivity|].
    symmetry. apply Z.eqb_eq. cbn in Hn. lia.
  - apply IH; [discriminate|]. cbn [List.length] in *. lia.
Qed.

End EqualDivisionAny.

(** X22.  In any arithmetic, for a non-empty list of blocks, once
    [duration_per_block] and [total_duration] are chosen as the code chooses
    them (2.0 and [2.0 * block_count] when the probed duration is below
    [2.0 * block_count], and otherwise [audio_duration / block_count] and
    [audio_duration]): the smart variant gives one entry per block, in
    order and numbered from 1; the entries are linked from [0 *
    duration_per_block], each starting where the one before it ends; the
    entry numbered [i] starts at [(i - 1) * duration_per_block]; and the
    last one ends at [total_duration]. *)
Theorem smart_entries_timeline {F : Type} `{PyNum F}
  (audio_duration : F) (blocks : list block)
  (duration_per_block total_duration : F) :
  blocks <> [] ->
  (lt audio_duration
      (mul (of_lit 2) (of_int (Z.of_nat (List.length blocks)))) = true
   /\ duration_per_block = of_lit 2
   /\ total_duration
      = mul (of_lit 2) (of_int (Z.of_nat (List.length blocks))))
  \/ (lt audio_duration
         (mul (of_lit 2) (of_int (Z.of_nat (List.length blocks)))) = false
      /\ truediv audio_duration (of_int (Z.of_nat (List.length blocks)))
         = Ok duration_per_block
      /\ total_duration = audio_duration) ->
  exists es : list (timed F),
    smart_entries audio_duration blocks = Ok es
    /\ map t_block es = blocks
    /\ map t_index es = map Z.of_nat (seq 1 (List.length blocks))
    /\ linked (mul (of_int 0) duration_per_block) es
    /\ Forall (fun e =>
                 t_start e = mul (of_int (t_index e - 1)) duration_per_block)
              es
    /\ last (map t_end es) total_duration = total_duration.
Proof.
  intros Hne Hplan.
  exists (map (entry_at (Z.of_nat (List.length blocks)) duration_per_block
                 total_duration) (enumerate blocks)).
  split.
  - unfold smart_entries.
    destruct Hplan as [(Hlt & -> & ->)|(Hlt & Hd & ->)]; rewrite Hlt.
    + reflexivity.
    + rewrite Hd. reflexivity.
  - unfold enumerate.
    split; [apply entry_at_blocks|]. split; [apply entry_at_indices|].
    split; [apply (entry_at_linked _ _ _ 0); reflexivity|].
    split; [apply entry_at_starts|].
    apply entry_at_last; [exact Hne | reflexivity].
Qed.

Lemma smart_entries_timeline_witness :
  [["a b c d"; "e f g h"]; ["i j k l"; "m n o p"]; ["q"]] <> []
  /\ ((lt (of_lit 10 : float)
          (mul (of_lit 2)
               (of_int (Z.of_nat
                          (List.length
                             [["a b c d"; "e f g h"]; ["i j k l"; "m n o p"];
                              ["q"]])))) = true
       /\ 0x1.aaaaaaaaaaaabp+1%float = of_lit 2
       /\ (of_lit 10 : float)
          = mul (of_lit 2)
                (of_int (Z.of_nat
                           (List.length
                              [["a b c d"; "e f g h"]; ["i j k l"; "m n o p"];
                               ["q"]]))))
      \/ (lt (of_lit 10 : float)
             (mul (of_lit 2)
                  (of_int (Z.of_nat
                             (List.length
                                [["a b c d"; "e f g h"];
                                 ["i j k l"; "m n o p"]; ["q"]])))) = false
          /\ truediv (of_lit 10 : float)
               (of_int (Z.of_nat
                          (List.length
                             [["a b c d"; "e f g h"]; ["i j k l"; "m n o p"];
                              ["q"]])))
             = Ok 0x1.aaaaaaaaaaaabp+1%float
          /\ (of_lit 10 : float) = of_lit 10))
  /\ exists es : list (timed float),
       smart_entries (of_lit 10)
         [["a b c d"; "e f g h"]; ["i j k l"; "m n o p"]; ["q"]] = Ok es
       /\ map t_block es
          = [["a b c d"; "e f g h"]; ["i j k l"; "m n o p"]; ["q"]]
       /\ map t_index es
          = map Z.of_nat
              (seq 1 (List.length
                        [["a b c d"; "e f g h"]; ["i j k l"; "m n o p"];
                         ["q"]]))
       /\ linked (mul (of_int 0) 0x1.aaaaaaaaaaaabp+1%float) es
       /\ Forall (fun e =>
                    t_start e
                    = mul (of_int (t_index e - 1)) 0x1.aaaaaaaaaaaabp+1%float)
                 es
       /\ last (map t_end es) (of_lit 10) = of_lit 10.
Proof.
  split; [discriminate|].
  split; [right; repeat split; vm_compute; reflexivity|].
  apply (smart_entries_timeline (of_lit 10 : float)
           [["a b c d"; "e f g h"]; ["i j k l"; "m n o p"]; ["q"]]
           0x1.aaaaaaaaaaaabp+1%float (of_lit 10));
    [discriminate|].
  right. repeat split; vm_compute; reflexivity.
Defined.

(** In binary64 the entries of an equal division need not last the same:
    10 s over three blocks give two entries of 3.3333333333333335 s and a
    last one of 3.333333333333333 s, which the assignment
    [end = total_duration] of the last iteration makes end at 10.0. *)
Example equal_division_b64 :
  smart_entries (of_lit 10 : float) [["a"]; ["b"]; ["c"]]
  = Ok [Timed 1 0%float 0x1.aaaaaaaaaaaabp+1%float ["a"];
        Timed 2 0x1.aaaaaaaaaaaabp+1%float 0x1.aaaaaaaaaaaabp+2%float ["b"];
        Timed 3 0x1.aaaaaaaaaaaabp+2%float 10%float ["c"]]
  /\ sub 0x1.aaaaaaaaaaaabp+2%float 0x1.aaaaaaaaaaaabp+1%float
     = 0x1.aaaaaaaaaaaabp+1%float
  /\ sub 10%float 0x1.aaaaaaaaaaaabp+2%float = 0x1.aaaaaaaaaaaaap+1%float.
Proof. repeat split; vm_compute; reflexivity. Qed.

Lemma smart_srt_returns (es : list (timed Q)) : exists srt, smart_srt es = Ok srt.
Proof.
  induction es as [|e es [r IH]]; [exists ""; reflexivity|].
  rewrite smart_srt_cons, !format_srt_time_spec, IH. cbn [bind]. eauto.
Qed.

Lemma range0_nil (stop step : nat) :
  0 < step -> range0 stop step = [] <-> stop = 0.
Proof.
  intros Hs. split.
  - intros H. apply (f_equal (@List.length nat)) in H.
    rewrite range0_length in H. cbn [List.length] in H.
    destruct stop as [|m]; [reflexivity|]. exfalso.
    assert (1 <= (S m + step - 1) / step); [|lia].
    apply Nat.div_le_lower_bound; lia.
  - intros ->. unfold range0.
    replace ((0 + step - 1) / step) with 0; [reflexivity|].
    symmetry. apply Nat.div_small. lia.
Qed.

(** X23 (exact arithmetic).  [smart_align_text_with_audio] raises nothing:
    it reports that no chunk was found exactly when the text has no word,
    and hands back an SRT text otherwise, whatever the probed duration. *)
Theorem smart_align_reports (audio_duration : Q) (text : string) :
  (split text = [] ->
   smart_align_text_with_audio audio_duration text = Ok NoChunks)
  /\ (split text <> [] ->
      exists srt,
        smart_align_text_with_audio audio_duration text = Ok (Aligned srt)).
Proof.
  unfold smart_align_text_with_audio. split.
  - intros E. unfold split_into_fixed_chunks. now rewrite E.
  - intros Hne.
    assert (Hc : split_into_fixed_chunks text 4 <> []).
    { unfold split_into_fixed_chunks. intros E.
      apply map_eq_nil in E. apply range0_nil in E; [|lia].
      apply length_zero_iff_nil in E. contradiction. }
    assert (Hb : group_chunks (split_into_fixed_chunks text 4) 2 <> []).
    { unfold group_chunks. intros E.
      apply map_eq_nil in E. apply range0_nil in E; [|lia].
      apply length_zero_iff_nil in E. contradiction. }
    destruct (split_into_fixed_chunks text 4) as [|c cs] eqn:Ec;
      [congruence|].
    unfold smart_entries.
    set (bs := group_chunks (c :: cs) 2) in *.
    set (n := Z.of_nat (List.length bs)).
    assert (Hn : (0 < inject_Z n)%Q).
    { unfold n. change 0%Q with (inject_Z 0). rewrite <- Zlt_Qlt.
      destruct bs; [congruence | cbn; lia]. }
    destruct (lt audio_duration (mul (of_lit 2) (of_int n))).
    + cbn [bind fst snd].
      match goal with |- context [smart_srt ?l] =>
        destruct (smart_srt_returns l) as [srt ->] end.
      cbn [bind]. eauto.
    + rewrite truediv_ok by (change (of_int n : Q) with (inject_Z n); lra).
      cbn [bind fst snd].
      match goal with |- context [smart_srt ?l] =>
        destruct (smart_srt_returns l) as [srt ->] end.
      cbn [bind]. eauto.
Qed.

Lemma smart_align_reports_witness :
  split "  " = []
  /\ smart_align_text_with_audio 60%Q "  " = Ok NoChunks
  /\ split "Hello world" <> []
  /\ exists srt,
       smart_align_text_with_audio 60%Q "Hello world" = Ok (Aligned srt).
Proof.
  split; [reflexivity|].
  split; [apply (smart_align_reports 60%Q "  "); reflexivity|].
  split; [discriminate|].
  apply (smart_align_reports 60%Q "Hello world"). discriminate.
Defined.

(* ------------------------------------------------------------------ *)
(** ** The professional variant and the text inputs *)

(** X24 (exact arithmetic, fallback segmenter).  The professional variant
    reports that no sentence was found exactly when the text is blank;
    on any other text it hands back an SRT text at every non-zero rate, and
    at a zero rate it raises [ZeroDivisionError], which the handler of the
    function reports as an error. *)
Theorem professional_align_reports (audio_duration wpm : Q) (text : string) :
  (whitespace_only text = true ->
   professional_align_text_with_audio None audio_duration text wpm
   = Ok NoSentences)
  /\ (whitespace_only text = false -> ~ (wpm == 0)%Q ->
      exists subtitle_count srt_content,
        professional_align_text_with_audio None audio_duration text wpm
        = Ok (Complete subtitle_count srt_content))
  /\ (whitespace_only text = false -> (wpm == 0)%Q ->
      professional_align_text_with_audio None audio_duration text wpm
      = Raise ZeroDivisionError).
Proof.
  unfold professional_align_text_with_audio. split; [|split].
  - intros Hw. unfold split_text_into_sentences.
    rewrite (strip_whitespace_only text Hw). cbn [truthy negb].
    now rewrite orb_true_r.
  - intros Hw Hr. pose proof (fallback_sentences_nonempty text Hw) as Hne.
    destruct (split_text_into_sentences None text) as [|s ss] eqn:E;
      [congruence|].
    destruct (synchronize_emitted (s :: ss) audio_duration wpm Hr)
      as (dur & _ & Hs); [discriminate|].
    rewrite Hs. cbn [bind].
    match goal with |- context [generate_srt_content ?l] =>
      destruct (generate_srt_content_two_lines l) as [srt ->] end.
    + apply forallb_forall. intros e He.
      pose proof (Forall_firstn _
                    (List.length (emitted audio_duration dur 1 (of_lit 0)
                                    (blocks_of (s :: ss))))
                    _ (blocks_of_two_lines (s :: ss))) as Hall.
      rewrite <- emitted_blocks in Hall.
      rewrite Forall_forall in Hall. apply Hall. now apply in_map.
    + cbn [bind]. eauto.
  - intros Hw Hr. pose proof (fallback_sentences_nonempty text Hw) as Hne.
    destruct (split_text_into_sentences None text) as [|s ss] eqn:E;
      [congruence|].
    unfold synchronize_with_audio.
    rewrite total_raises_at_zero_rate by (auto; discriminate). reflexivity.
Qed.

Lemma professional_align_reports_witness :
  whitespace_only "Hello world! This is a test." = false
  /\ ~ (165 == 0)%Q
  /\ exists subtitle_count srt_content,
       professional_align_text_with_audio None 30%Q
         "Hello world! This is a test." 165%Q
       = Ok (Complete subtitle_count srt_content).
Proof.
  split; [reflexivity|]. split; [discriminate|].
  destruct (professional_align_reports 30%Q 165%Q
              "Hello world! This is a test.") as (_ & Hok & _).
  apply Hok; [reflexivity | discriminate].
Defined.

(** X25.  [extract_text_from_input] and [combine_text_inputs] return the
    same on all arguments.  Typed text that is not blank wins over any
    uploaded file: it comes back stripped, itself not blank, with no error,
    and the file is not read.  With nothing typed (or blank text) and no
    file, the result is no text and the message that none was provided. *)
Theorem text_inputs_priority
  (file : Type) (file_truthy : file -> bool)
  (extract_text_from_file : option file -> option string * option string)
  (text_file : option file) (text_input : option string) :
  extract_text_from_input file file_truthy extract_text_from_file
    text_file text_input
  = combine_text_inputs file file_truthy extract_text_from_file
      text_file text_input
  /\ (forall s, text_input = Some s -> whitespace_only s = false ->
      combine_text_inputs file file_truthy extract_text_from_file
        text_file text_input
      = (Some (strip s), None)
      /\ whitespace_only (strip s) = false
      /\ strip (strip s) = strip s)
  /\ ((forall s, text_input = Some s -> whitespace_only s = true) ->
      text_file = None ->
      combine_text_inputs file file_truthy extract_text_from_file
        text_file text_input
      = (None, Some "No text provided. Please upload a file or type text.")).
Proof.
  split; [reflexivity|]. split.
  - intros s -> Hs. unfold combine_text_inputs.
    assert (Ht : truthy (strip s) = true).
    { destruct (strip s) eqn:E; [|reflexivity].
      apply strip_blank in E. congruence. }
    assert (Hs' : truthy s = true) by (destruct s; [discriminate|reflexivity]).
    rewrite Hs', Ht. cbn [andb]. split; [reflexivity|].
    split; [|apply strip_idempotent].
    apply rstrip_not_blank. now apply truthy_true.
  - intros Hb ->. unfold combine_text_inputs.
    destruct text_input as [s|]; [|reflexivity].
    rewrite (strip_whitespace_only s (Hb s eq_refl)). cbn [truthy].
    now rewrite andb_false_r.
Qed.

Lemma text_inputs_priority_witness :
  whitespace_only " typed " = false
  /\ combine_text_inputs unit (fun _ => true)
       (fun _ => (Some "from file", None)) (Some tt) (Some " typed ")
     = (Some (strip " typed "), None)
  /\ whitespace_only (strip " typed ") = false
  /\ strip (strip " typed ") = strip " typed ".
Proof.
  split; [reflexivity|].
  destruct (text_inputs_priority unit (fun _ => true)
              (fun _ => (Some "from file", None)) (Some tt) (Some " typed "))
    as (_ & Htyped & _).
  apply (Htyped " typed "); reflexivity.
Defined.

(** X26.  The blocks the professional variant builds from the sentences of
    the fallback segmenter display, sentence by sentence, the words X1
    describes; when every sentence has fewer than 8 words, or a number of
    words whose remainder by 8 is 0 or at least 4, they display every word
    of the text, in order. *)
Theorem professional_blocks_display (text : string) :
  let sentences := split_text_into_sentences None text in
  displayed_words (blocks_of sentences)
  = flat_map (fun s => firstn (kept_words (List.length (split s))) (split s))
             sentences
  /\ (Forall (fun s => let n := List.length (split s) in
                       n < 8 \/ n mod 8 = 0 \/ 4 <= n mod 8) sentences ->
      displayed_words (blocks_of sentences) = split text).
Proof.
  intros sentences.
  assert (E : displayed_words (blocks_of sentences)
              = flat_map (fun s => firstn (kept_words (List.length (split s)))
                                          (split s)) sentences).
  { unfold blocks_of. rewrite displayed_flat_map. apply flat_map_ext.
    intros s. apply split_long_sentence_kept. }
  split; [exact E|]. intros Hall. rewrite E, <- (fallback_words text).
  fold sentences. clear E. induction Hall as [|s ss Hs _ IH]; [reflexivity|].
  cbn [flat_map]. rewrite IH. f_equal.
  apply firstn_whole. apply kept_words_all in Hs. lia.
Qed.

Lemma professional_blocks_display_witness :
  Forall (fun s => let n := List.length (split s) in
                   n < 8 \/ n mod 8 = 0 \/ 4 <= n mod 8)
         (split_text_into_sentences None "Hello world! This is a test.")
  /\ displayed_words
       (blocks_of (split_text_into_sentences None
                     "Hello world! This is a test."))
     = split "Hello world! This is a test.".
Proof.
  assert (H : Forall (fun s => let n := List.length (split s) in
                               n < 8 \/ n mod 8 = 0 \/ 4 <= n mod 8)
                (split_text_into_sentences None
                   "Hello world! This is a test.")).
  { assert (E : split_text_into_sentences None "Hello world! This is a test."
                = ["Hello world!"; "This is a test."]) by reflexivity.
    rewrite E. constructor; [left; vm_compute; lia|].
    constructor; [left; vm_compute; lia|]. constructor. }
  split; [exact H|].
  destruct (professional_blocks_display "Hello world! This is a test.")
    as [_ Hall].
  apply Hall. exact H.
Defined.
